(** * topik input readers: a shallow embedding of [topik/readers.py] and
      [topik/fileio/reader.py]

    The readers are Python generators.  A generator is modelled by the
    trace of what it does when it is iterated to its end: the records it
    yields, the warnings it logs and the requests it sends to the remote
    store, in order, followed by the way the iteration ends. *)

From Stdlib Require Import ZArith Ascii String DecimalString DecimalNat Lia.
From stdpp Require Import base strings list gmap.

#[local] Set Warnings "-register-all".
Local Open Scope string_scope.
Local Open Scope list_scope.
Local Open Scope nat_scope.

(** ** Python values *)

(** What [json.loads] builds and what a search hit holds.  A dictionary is
    kept as its items in the order of insertion; [JNull] is Python's
    [None]. *)
Inductive json : Type :=
| JNull
| JBool (b : bool)
| JInt (z : Z)
| JString (s : string)
| JArray (elems : list json)
| JObject (items : list (string * json)).

(** The exception classes that the readers raise, catch or let through. *)
Inductive exn : Type :=
| ValueError
| KeyError
| TypeError
| AttributeError
| IOError
| StopIteration
| JSONError
| ConnectionError.

Global Instance exn_eq_dec : EqDecision exn.
Proof. solve_decision. Defined.

(** The value bound to a key: a later item for the same key replaces an
    earlier one, as an insertion into a dict does. *)
Fixpoint dict_lookup (k : string) (items : list (string * json)) : option json :=
  match items with
  | [] => None
  | (k', v) :: rest =>
      match dict_lookup k rest with
      | Some v' => Some v'
      | None => if String.eqb k k' then Some v else None
      end
  end.

(** [d.get(k)]: the value, or [None] when the key is absent. *)
Definition dict_get (items : list (string * json)) (k : string) : json :=
  default JNull (dict_lookup k items).

(** [v[k]] for a string key [k]: only a dict can be indexed by a string,
    and a missing key is a [KeyError]. *)
Definition getitem (v : json) (k : string) : exn + json :=
  match v with
  | JObject items =>
      match dict_lookup k items with
      | Some x => inr x
      | None => inl KeyError
      end
  | _ => inl TypeError
  end.

(** ** Records, log entries and traces *)

(** A search hit: the store's document id and the stored document. *)
Record hit : Type := Hit {
  _id : string;
  _source : list (string * json)
}.

(** One page of a search: the scroll cursor, when there is one, and the
    hits ([resp['hits']['hits']]). *)
Record response : Type := Response {
  _scroll_id : option string;
  hits : list hit
}.

(** The tuples the readers yield: [(identifier, content)], or
    [(_id, identifier, content)] from a query reader with [include_id]. *)
Inductive tuple : Type :=
| Doc (id : string) (content : json)
| DocWithId (hit_id : string) (id : string) (content : json).

(** The identifier component of a yielded tuple and its content. *)
Definition tuple_id (t : tuple) : string :=
  match t with Doc id _ => id | DocWithId _ id _ => id end.

Definition tuple_content (t : tuple) : json :=
  match t with Doc _ c => c | DocWithId _ _ c => c end.

(** The two [logging.warning] calls of the readers in scope. *)
Inductive warning : Type :=
| UnableToProcessLine (line : string)
| UnableToProcessRow (h : hit).

(** The requests a query reader can send through the client. *)
Inductive request : Type :=
| Search (index : string) (doc_type : option string)
| Scroll (cursor : string)
| Count (index : string) (doc_type : option string)
| SearchWindow (index : string) (doc_type : string) (from_ size : Z).

Inductive event : Type :=
| Yield (t : tuple)
| Warn (w : warning)
| Send (r : request).

(** How an iteration ends: the generator returns, an exception leaves it,
    or (for a loop run with bounded fuel) it is still running. *)
Inductive outcome : Type :=
| Stop
| Raise (e : exn)
| Running.

Definition trace : Type := list event * outcome.

Definition emit (e : event) (t : trace) : trace := (e :: t.1, t.2).

Definition yields (t : trace) : list tuple :=
  omap (fun e => match e with Yield x => Some x | _ => None end) t.1.

Definition warnings (t : trace) : list warning :=
  omap (fun e => match e with Warn w => Some w | _ => None end) t.1.

Definition requests (t : trace) : list request :=
  omap (fun e => match e with Send r => Some r | _ => None end) t.1.

(** ** String formatting *)

(** ["%d" % n] *)
Definition dec (n : nat) : string := NilEmpty.string_of_uint (Nat.to_uint n).

(** ["%s/%s[%d]" % (filename, field, n)] *)
Definition line_id (filename field : string) (n : nat) : string :=
  filename +:+ "/" +:+ field +:+ "[" +:+ dec n +:+ "]".

(** ["%s/%s" % (a, b)] *)
Definition slash (a b : string) : string := a +:+ "/" +:+ b.

(** ** File readers *)

(** A file is the list of its lines, each as the file iterator returns it;
    [open] of a name that is not there raises [IOError]. *)
Section Readers.

(** [json.loads]: the decoded value, or [None] for a [ValueError]. *)
Variable json_loads : string -> option json.

(** [ijson.parse] on the text of a file: the [(prefix, event, value)]
    triples it produces and how the parse ends. *)
Variable ijson_parse : list string -> list (string * string * json) * outcome.

(** The body of [for n, line in enumerate(f)] in
    [iter_document_json_stream], from line number [n] on. *)
Fixpoint json_stream_from (filename field : string) (n : nat)
    (lines : list string) : trace :=
  match lines with
  | [] => ([], Stop)
  | line :: rest =>
      match json_loads line with
      | None =>
          emit (Warn (UnableToProcessLine line))
               (json_stream_from filename field (S n) rest)
      | Some (JObject dictionary) =>
          let content := dict_get dictionary field in
          let id := line_id filename field n in
          emit (Yield (Doc id content))
               (json_stream_from filename field (S n) rest)
      | Some _ => ([], Raise AttributeError)
      end
  end.

Definition iter_document_json_stream (fs : gmap string (list string))
    (filename field : string) : trace :=
  match fs !! filename with
  | None => ([], Raise IOError)
  | Some f => json_stream_from filename field 0 f
  end.

(** The loop of [iter_large_json] over the parser's triples. *)
Fixpoint large_json_from (prefix_value event_value : string)
    (triples : list (string * string * json)) : list event :=
  match triples with
  | [] => []
  | (prefix, ev, value) :: rest =>
      if decide ((prefix, ev) = (prefix_value, event_value))
      then Yield (Doc (slash prefix ev) value)
             :: large_json_from prefix_value event_value rest
      else large_json_from prefix_value event_value rest
  end.

Definition iter_large_json (fs : gmap string (list string))
    (json_file prefix_value event_value : string) : trace :=
  match fs !! json_file with
  | None => ([], Raise IOError)
  | Some f =>
      let parser := ijson_parse f in
      (large_json_from prefix_value event_value parser.1, parser.2)
  end.

End Readers.

(** ** Query readers *)

(** What the Elasticsearch client answers: the pages the store returns to
    the scroll search and to the scroll requests after it, in order (a
    request beyond the last page fails in the transport); the document
    count; and the hits of the [k]-th windowed search for a given
    [from_] and [size]. *)
Record cluster : Type := Cluster {
  pages : list response;
  count : Z;
  window : nat -> Z -> Z -> list hit
}.

Section Extraction.

Variables (field : string) (subfield : option string) (include_id : bool).

(** The body of the [try] in both query readers, up to the [yield]. *)
Definition make_tuple (h : hit) : exn + tuple :=
  let s := JObject (_source h) in
  let tup :=
    match subfield with
    | Some sub =>
        match getitem s field with
        | inl e => inl e
        | inr v =>
            match getitem v sub with
            | inl e => inl e
            | inr c => inr (slash field sub, c)
            end
        end
    | None =>
        match getitem s field with
        | inl e => inl e
        | inr c => inr (field, c)
        end
    end in
  match tup with
  | inl e => inl e
  | inr (id, c) =>
      inr (if include_id then DocWithId (_id h) id c else Doc id c)
  end.

(** [except (ValueError, KeyError)] *)
Definition caught (e : exn) : bool :=
  match e with ValueError | KeyError => true | _ => false end.

(** [for hit in resp['hits']['hits']] of [iter_elastic_query]: the events
    of the page, then the exception that left the loop or the new value
    of [error_prints]. *)
Fixpoint scroll_hits (error_prints : nat) (hs : list hit)
    : list event * (exn + nat) :=
  match hs with
  | [] => ([], inr error_prints)
  | h :: rest =>
      match make_tuple h with
      | inr tup =>
          let r := scroll_hits error_prints rest in
          (Yield tup :: r.1, r.2)
      | inl e =>
          if caught e then
            if error_prints <? 10 then
              let r := scroll_hits (error_prints + 1) rest in
              (Warn (UnableToProcessRow h) :: r.1, r.2)
            else scroll_hits error_prints rest
          else ([], inl e)
      end
  end.

(** [while True] of [iter_elastic_query]; [resp] is assigned once, before
    the loop.  At most [fuel] rounds of the loop are run; a loop that has
    not left by then is [Running]. *)
Fixpoint scroll_loop (fuel : nat) (resp : response) (error_prints : nat)
    : trace :=
  match fuel with
  | O => ([], Running)
  | S fuel' =>
      match scroll_hits error_prints (hits resp) with
      | (evs, inl e) => (evs, Raise e)
      | (evs, inr error_prints') =>
          let scroll_id := _scroll_id resp in
          if bool_decide (scroll_id = None) || bool_decide (hits resp = [])
          then (evs, Stop)
          else
            let r := scroll_loop fuel' resp error_prints' in
            (evs ++ r.1, r.2)
      end
  end.

Definition iter_elastic_query (fuel : nat) (es : cluster) (index : string)
    (doc_type : option string) : trace :=
  match pages es with
  | [] => ([Send (Search index doc_type)], Raise ConnectionError)
  | resp :: _ =>
      emit (Send (Search index doc_type))
        match _scroll_id resp with
        | None => ([], Stop)
        | Some _ => scroll_loop fuel resp 0
        end
  end.

(** [for hit in resp['hits']['hits']] of [random_elastic_query], which
    also counts the yielded tuples in [sampled]. *)
Fixpoint sample_hits (sampled : Z) (error_prints : nat) (hs : list hit)
    : list event * (exn + Z * nat) :=
  match hs with
  | [] => ([], inr (sampled, error_prints))
  | h :: rest =>
      match make_tuple h with
      | inr tup =>
          let r := sample_hits (sampled + 1) error_prints rest in
          (Yield tup :: r.1, r.2)
      | inl e =>
          if caught e then
            if error_prints <? 10 then
              let r := sample_hits sampled (error_prints + 1) rest in
              (Warn (UnableToProcessRow h) :: r.1, r.2)
            else sample_hits sampled error_prints rest
          else ([], inl e)
      end
  end.

Section Sampling.

(** [randint k] is the [k]-th number that [random.randint] draws. *)
Variables (randint : nat -> Z) (es : cluster) (index : string).
Variables (batch_size n_samples : Z).

(** [random_in_range] for the [k]-th batch; [random.randint(0, b)]
    raises [ValueError] when [b < 0]. *)
Definition random_in_range (k : nat) : exn + Z * Z :=
  if (count es <? 0)%Z then inl ValueError
  else
    let r := randint k in
    if (r <? 0)%Z then inr (0%Z, (batch_size + r)%Z)
    else inr (r, batch_size).

(** [while sampled < n_samples]; [k] counts the searches made and [fuel]
    bounds the rounds that are run. *)
Fixpoint sample_loop (fuel : nat) (k : nat) (sampled : Z)
    (error_prints : nat) : trace :=
  match fuel with
  | O => ([], Running)
  | S fuel' =>
      if (sampled <? n_samples)%Z then
        match random_in_range k with
        | inl e => ([], Raise e)
        | inr (r, siz) =>
            let resp := window es k r siz in
            emit (Send (SearchWindow index "article" r siz))
              match sample_hits sampled error_prints resp with
              | (evs, inl e) => (evs, Raise e)
              | (evs, inr (sampled', error_prints')) =>
                  let t := sample_loop fuel' (S k) sampled' error_prints' in
                  (evs ++ t.1, t.2)
              end
        end
      else ([], Stop)
  end.

Definition random_elastic_query (fuel : nat) (doc_type : option string)
    : trace :=
  emit (Send (Count index doc_type)) (sample_loop fuel 0 0%Z 0).

End Sampling.

End Extraction.

(** ** The source resolver *)

(** [sub in s] for two strings. *)
Fixpoint str_in (sub s : string) : bool :=
  String.prefix sub s ||
  match s with
  | EmptyString => false
  | String _ s' => str_in sub s'
  end.

(** [s.rfind(c)] for a one-character [c], counting positions from [i]:
    the highest index of [c], or [-1]. *)
Fixpoint rfind_from (c : ascii) (s : string) (i : Z) : Z :=
  match s with
  | EmptyString => (-1)%Z
  | String a s' =>
      let later := rfind_from c s' (i + 1)%Z in
      if (0 <=? later)%Z then later
      else if Ascii.eqb a c then i else (-1)%Z
  end.

Definition rfind (c : ascii) (s : string) : Z := rfind_from c s 0%Z.

(** The loop of [genericpath._splitext] that skips the leading dots of the
    last component: is there a character other than a dot at one of the
    [steps] positions from [filenameIndex] on? *)
Fixpoint has_stem (p : string) (filenameIndex : nat) (steps : nat) : bool :=
  match steps with
  | O => false
  | S steps' =>
      match String.get filenameIndex p with
      | Some "."%char => has_stem p (S filenameIndex) steps'
      | _ => true
      end
  end.

(** [os.path.splitext] of [posixpath]: separator [/], no alternative
    separator, extension separator [.]. *)
Definition splitext (p : string) : string * string :=
  let sepIndex := rfind "/" p in
  let dotIndex := rfind "." p in
  if (sepIndex <? dotIndex)%Z
       && has_stem p (Z.to_nat (sepIndex + 1)) (Z.to_nat (dotIndex - (sepIndex + 1)))
  then (String.substring 0 (Z.to_nat dotIndex) p,
        String.substring (Z.to_nat dotIndex) (String.length p - Z.to_nat dotIndex) p)
  else (p, EmptyString).

Definition json_extensions : list string := [".js"; ".json"].

(** The keyword arguments that [read_input] passes on unchanged. *)
Record kwargs : Type := Kwargs {
  kw_field : string;
  kw_subfield : option string;
  kw_index : string;
  kw_doc_type : option string;
  kw_include_id : bool;
  kw_prefix_value : string;
  kw_event_value : string
}.

(** The generator object that a registered reader returns when it is
    called: nothing of it has run yet.  The constructors are the keys of
    [registered_inputs]. *)
Inductive iterator : Type :=
| read_solr (source : string) (kw : kwargs)
| read_elastic (source : string) (kw : kwargs)
| read_json_stream (source : string) (kw : kwargs)
| read_large_json (source : string) (kw : kwargs)
| read_document_folder (source : string) (content_field : string).

(** What a call of [read_input] comes to. *)
Inductive result : Type :=
| Returns (data_iterator : iterator)
| Raises (e : exn)
| Hangs.

(** What the readers read: the files by name and the cluster behind each
    server address. *)
Record world : Type := World {
  files : gmap string (list string);
  elastic : string -> cluster
}.

(** [next(it)] on a generator that has not started: what it does up to its
    first [yield], and what the caller gets. *)
Inductive pulled : Type :=
| Got (t : tuple)
| Raised (e : exn)
| Pending.

Fixpoint next_events (evs : list event) (o : outcome) : list event * pulled :=
  match evs with
  | [] =>
      ([], match o with
           | Stop => Raised StopIteration
           | Raise e => Raised e
           | Running => Pending
           end)
  | Yield t :: _ => ([], Got t)
  | e :: rest => let r := next_events rest o in (e :: r.1, r.2)
  end.

Definition next (t : trace) : list event * pulled := next_events t.1 t.2.

Section Resolver.

(** [topik/fileio/_registry.py], which binds the keys of
    [registered_inputs] to readers, is not among the sources, so the reader
    registered as ["read_json_stream"] is a parameter of the resolver:
    [registered_json_stream w source kw] is what the generator
    [registered_inputs["read_json_stream"](source, **kwargs)] does when it
    is iterated, its events in order and the way it ends.  A call that
    raises before any iteration is a trace that raises at once. *)
Variable registered_json_stream : world -> string -> kwargs -> trace.

Variable ijson_parse : list string -> list (string * string * json) * outcome.

(** Modelled from the spec: [topik/fileio/_registry.py] is not among the
    sources.  The spec's resolver selects "one of the above readers": the
    large-JSON reader for [read_large_json] and the full-scroll reader for
    [read_elastic], each taking the parameters it has from the keyword
    arguments; [read_json_stream] is the registered reader above.
    [read_solr] needs [topik.utils.batch_concat] and
    [read_document_folder] a directory tree; neither is iterated here. *)
Definition iterate (fuel : nat) (w : world) (it : iterator) : option trace :=
  match it with
  | read_json_stream source kw => Some (registered_json_stream w source kw)
  | read_large_json source kw =>
      Some (iter_large_json ijson_parse (files w) source
              (kw_prefix_value kw) (kw_event_value kw))
  | read_elastic source kw =>
      Some (iter_elastic_query (kw_field kw) (kw_subfield kw) (kw_include_id kw)
              fuel (elastic w source) (kw_index kw) (kw_doc_type kw))
  | read_solr _ _ => None
  | read_document_folder _ _ => None
  end.

(** [next(itertools.tee(data_iterator)[0])] on the generator that
    [registered_inputs["read_json_stream"](source, **kwargs)] has just
    returned. *)
Definition probe (w : world) (source : string) (kw : kwargs)
    : list event * pulled :=
  next (registered_json_stream w source kw).

(** [read_input]: the events of the probe, if one was made, and the
    result. *)
Definition read_input (w : world) (source source_type content_field : string)
    (kw : kwargs) : list event * result :=
  if (String.eqb source_type "auto" && str_in "8983" source)
       || String.eqb source_type "solr"
  then ([], Returns (read_solr source kw))
  else if (String.eqb source_type "auto" && str_in "9200" source)
            || String.eqb source_type "elastic"
  then ([], Returns (read_elastic source kw))
  else if (String.eqb source_type "auto"
             && bool_decide ((splitext source).2 ∈ json_extensions))
            || String.eqb source_type "json_stream"
  then
    match probe w source kw with
    | (evs, Got _) => (evs, Returns (read_json_stream source kw))
    | (evs, Raised ValueError) => (evs, Returns (read_large_json source kw))
    | (evs, Raised e) => (evs, Raises e)
    | (evs, Pending) => (evs, Hangs)
    end
  else if String.eqb source_type "large_json"
  then ([], Returns (read_large_json source kw))
  else if (String.eqb source_type "auto"
             && String.eqb (splitext source).2 EmptyString)
            || String.eqb source_type "folder"
  then ([], Returns (read_document_folder source content_field))
  else ([], Raises ValueError).

End Resolver.

(** Modelled from the spec: [topik/fileio/_registry.py] is not among the
    sources.  The spec's third rule attempts "the JSON-lines reader": this
    is the JSON-lines reader of [readers.py] in the place of the registered
    reader, on the field named in the keyword arguments.  It serves to run
    the resolver on sample inputs; the theorems about the resolver hold for
    every registered reader. *)
Definition json_lines_reader (json_loads : string -> option json)
    (w : world) (source : string) (kw : kwargs) : trace :=
  iter_document_json_stream json_loads (files w) source (kw_field kw).

(** ** The folder reader *)

(** [s.endswith(suffix)] *)
Definition str_endswith (suffix s : string) : bool :=
  (String.length suffix <=? String.length s)
  && String.eqb
       (String.substring (String.length s - String.length suffix)
          (String.length suffix) s)
       suffix.

(** [os.path.join(a, b)] of [posixpath]. *)
Definition path_join (a b : string) : string :=
  if String.prefix "/" b then b
  else if String.eqb a EmptyString || str_endswith "/" a then a +:+ b
  else a +:+ "/" +:+ b.

(** What the folder reader finds on disk: the triples
    [(directory, subdirectories, files)] of [os.walk(folder)], and for a
    path opened with [gzip.open] (flag [true]) or [open] (flag [false]) in
    mode ['rb'], the bytes that [f.read()] returns or the exception that
    opening or reading raises. *)
Record disk : Type := Disk {
  walk : string -> list (string * list string * list string);
  read_rb : bool -> string -> exn + string
}.

(** The folder reader yields [(fullpath, text)] and logs
    ["Unable to process file: %s" % fullpath]. *)
Inductive folder_event : Type :=
| FileYield (fullpath : string) (text : string)
| FileWarn (fullpath : string).

Definition event_path (e : folder_event) : string :=
  match e with FileYield p _ => p | FileWarn p => p end.

Section Folder.

(** [bytes.decode('utf-8')]: the text, or [None] for a
    [UnicodeDecodeError]. *)
Variable decode_utf8 : string -> option string.
Variable d : disk.

(** [for file in files] of [iter_documents_folder];
    [except (ValueError, UnicodeDecodeError)] catches [ValueError] and its
    subclasses only. *)
Fixpoint folder_files (directory : string) (files : list string)
    : list folder_event * outcome :=
  match files with
  | [] => ([], Stop)
  | file :: rest =>
      let _open := str_endswith ".gz" file in
      let fullpath := path_join directory file in
      match read_rb d _open fullpath with
      | inr bytes =>
          match decode_utf8 bytes with
          | Some text =>
              let r := folder_files directory rest in
              (FileYield fullpath text :: r.1, r.2)
          | None =>
              let r := folder_files directory rest in
              (FileWarn fullpath :: r.1, r.2)
          end
      | inl ValueError =>
          let r := folder_files directory rest in
          (FileWarn fullpath :: r.1, r.2)
      | inl e => ([], Raise e)
      end
  end.

(** [for directory, subdirectories, files in os.walk(folder)] *)
Fixpoint folder_walk (dirs : list (string * list string * list string))
    : list folder_event * outcome :=
  match dirs with
  | [] => ([], Stop)
  | (directory, subdirectories, files) :: rest =>
      match folder_files directory files with
      | (evs, Stop) =>
          let r := folder_walk rest in
          (evs ++ r.1, r.2)
      | (evs, o) => (evs, o)
      end
  end.

Definition iter_documents_folder (folder : string)
    : list folder_event * outcome :=
  folder_walk (walk d folder).

End Folder.

(** ** Decoders to run the readers with *)

(** The theorems below hold for every [json_loads] and [ijson_parse].  To
    run the readers on concrete files, this module gives a decoder for the
    fragment of JSON without floating-point numbers, escape sequences and
    the literals [NaN] and [Infinity]: on a text of the fragment, and on a
    text that is not JSON at all, it answers as [json.loads] does. *)
Module Fragment.

Definition quote : ascii := "034"%char.

(** [WHITESPACE = re.compile(r'[ \t\n\r]*')] *)
Definition is_ws (c : ascii) : bool :=
  Ascii.eqb c " " || Ascii.eqb c "009" || Ascii.eqb c "010" || Ascii.eqb c "013".

Fixpoint skip_ws (s : string) : string :=
  match s with
  | String c s' => if is_ws c then skip_ws s' else s
  | EmptyString => s
  end.

Definition is_digit (c : ascii) : bool :=
  (48 <=? nat_of_ascii c) && (nat_of_ascii c <=? 57).

(** The text of a string after its opening quote: the characters up to
    the closing quote, and what follows it. *)
Fixpoint scan_string (s : string) : option (string * string) :=
  match s with
  | EmptyString => None
  | String c s' =>
      if Ascii.eqb c quote then Some (EmptyString, s')
      else if Ascii.eqb c "\" then None
      else if nat_of_ascii c <? 32 then None
      else
        match scan_string s' with
        | Some (str, rest) => Some (String c str, rest)
        | None => None
        end
  end.

(** A run of digits with the number read so far. *)
Fixpoint scan_digits (acc : Z) (s : string) : Z * string :=
  match s with
  | String c s' =>
      if is_digit c
      then scan_digits (10 * acc + Z.of_nat (nat_of_ascii c - 48))%Z s'
      else (acc, s)
  | EmptyString => (acc, s)
  end.

(** An integer literal (an optional minus sign, then a single zero or
    digits that do not start with a zero), not followed by a fraction or
    an exponent. *)
Definition scan_int (s : string) : option (Z * string) :=
  let (neg, body) :=
    match s with
    | String "-" s' => (true, s')
    | _ => (false, s)
    end in
  match body with
  | String c s' =>
      if is_digit c then
        let (n, rest) :=
          if Ascii.eqb c "0" then (0%Z, s') else scan_digits 0 body in
        match rest with
        | String "." _ | String "e" _ | String "E" _ => None
        | _ => Some (if neg then (- n)%Z else n, rest)
        end
      else None
  | EmptyString => None
  end.

Definition expect (word : string) (s : string) : option string :=
  if String.prefix word s
  then Some (String.substring (String.length word)
               (String.length s - String.length word) s)
  else None.

(** [scan_once] with [JSONArray] and [JSONObject] of [json.decoder]. *)
Fixpoint parse_value (fuel : nat) (s : string) : option (json * string) :=
  match fuel with
  | O => None
  | S fuel' =>
      match s with
      | EmptyString => None
      | String c s' =>
          if Ascii.eqb c quote then
            match scan_string s' with
            | Some (str, rest) => Some (JString str, rest)
            | None => None
            end
          else if Ascii.eqb c "{" then
            match skip_ws s' with
            | String "}" rest => Some (JObject [], rest)
            | body =>
                match parse_members fuel' body with
                | Some (items, rest) => Some (JObject items, rest)
                | None => None
                end
            end
          else if Ascii.eqb c "[" then
            match skip_ws s' with
            | String "]" rest => Some (JArray [], rest)
            | body =>
                match parse_elems fuel' body with
                | Some (elems, rest) => Some (JArray elems, rest)
                | None => None
                end
            end
          else if Ascii.eqb c "n" then
            match expect "null" s with Some rest => Some (JNull, rest) | None => None end
          else if Ascii.eqb c "t" then
            match expect "true" s with Some rest => Some (JBool true, rest) | None => None end
          else if Ascii.eqb c "f" then
            match expect "false" s with Some rest => Some (JBool false, rest) | None => None end
          else
            match scan_int s with
            | Some (n, rest) => Some (JInt n, rest)
            | None => None
            end
      end
  end
with parse_members (fuel : nat) (s : string)
    : option (list (string * json) * string) :=
  match fuel with
  | O => None
  | S fuel' =>
      match s with
      | String c s' =>
          if Ascii.eqb c quote then
            match scan_string s' with
            | Some (key, rest) =>
                match skip_ws rest with
                | String ":" rest' =>
                    match parse_value fuel' (skip_ws rest') with
                    | Some (value, rest'') =>
                        match skip_ws rest'' with
                        | String "}" after => Some ([(key, value)], after)
                        | String "," more =>
                            match parse_members fuel' (skip_ws more) with
                            | Some (items, after) => Some ((key, value) :: items, after)
                            | None => None
                            end
                        | _ => None
                        end
                    | None => None
                    end
                | _ => None
                end
            | None => None
            end
          else None
      | EmptyString => None
      end
  end
with parse_elems (fuel : nat) (s : string) : option (list json * string) :=
  match fuel with
  | O => None
  | S fuel' =>
      match parse_value fuel' s with
      | Some (value, rest) =>
          match skip_ws rest with
          | String "]" after => Some ([value], after)
          | String "," more =>
              match parse_elems fuel' (skip_ws more) with
              | Some (elems, after) => Some (value :: elems, after)
              | None => None
              end
          | _ => None
          end
      | None => None
      end
  end.

(** [json.loads]: one value between optional whitespace, nothing after
    it. *)
Definition json_loads (s : string) : option json :=
  match parse_value (2 * String.length s + 2) (skip_ws s) with
  | Some (v, rest) =>
      match skip_ws rest with
      | EmptyString => Some v
      | _ => None
      end
  | None => None
  end.

Definition path (prefix key : string) : string :=
  match prefix with
  | EmptyString => key
  | _ => prefix +:+ "." +:+ key
  end.

(** The triples that [ijson.parse] produces for a document. *)
Fixpoint ijson_events (prefix : string) (v : json) {struct v}
    : list (string * string * json) :=
  match v with
  | JNull => [(prefix, "null", JNull)]
  | JBool _ => [(prefix, "boolean", v)]
  | JInt _ => [(prefix, "number", v)]
  | JString _ => [(prefix, "string", v)]
  | JArray elems =>
      (prefix, "start_array", JNull)
        :: (fix each (l : list json) :=
              match l with
              | [] => []
              | e :: l' => ijson_events (path prefix "item") e ++ each l'
              end) elems
        ++ [(prefix, "end_array", JNull)]
  | JObject items =>
      (prefix, "start_map", JNull)
        :: (fix each (l : list (string * json)) :=
              match l with
              | [] => []
              | (k, e) :: l' =>
                  (prefix, "map_key", JString k)
                    :: ijson_events (path prefix k) e ++ each l'
              end) items
        ++ [(prefix, "end_map", JNull)]
  end.

(** [ijson.parse] over the lines of a file that holds one document. *)
Definition ijson_parse (lines : list string)
    : list (string * string * json) * outcome :=
  match json_loads (String.concat EmptyString lines) with
  | Some v => (ijson_events EmptyString v, Stop)
  | None => ([], Raise JSONError)
  end.

End Fragment.

(** ** Sample inputs *)

Module Samples.

Import Fragment.

(** [q s] is [s] between double quotes; [nl] ends a line. *)
Definition q (s : string) : string :=
  String quote (s +:+ String quote EmptyString).

Definition nl : string := String "010"%char EmptyString.

(** Three well-formed lines; the last object has no ["text"]. *)
Definition reviews : list string :=
  [ "{" +:+ q "id" +:+ ": 1, " +:+ q "text" +:+ ": " +:+ q "incredible" +:+ "}" +:+ nl;
    "{" +:+ q "id" +:+ ": 2, " +:+ q "text" +:+ ": " +:+ q "big data" +:+ "}" +:+ nl;
    "{" +:+ q "id" +:+ ": 3}" +:+ nl ].

(** Three lines, the second cut short. *)
Definition cut_line : string :=
  "{" +:+ q "id" +:+ ": 2, " +:+ q "text" +:+ ": " +:+ nl.

Definition broken : list string :=
  [ "{" +:+ q "id" +:+ ": 1, " +:+ q "text" +:+ ": " +:+ q "incredible" +:+ "}" +:+ nl;
    cut_line;
    "{" +:+ q "id" +:+ ": 3, " +:+ q "text" +:+ ": " +:+ q "topic models" +:+ "}" +:+ nl ].

(** One JSON document laid out over five lines. *)
Definition big : list string :=
  [ "{" +:+ nl;
    " " +:+ q "item" +:+ ": [" +:+ nl;
    "  {" +:+ q "content" +:+ ": " +:+ q "a" +:+ "}," +:+ nl;
    "  {" +:+ q "content" +:+ ": " +:+ q "b" +:+ "}]" +:+ nl;
    "}" +:+ nl ].

(** A page with a cursor and one hit, then the empty page that ends the
    scroll. *)
Definition one_hit : hit :=
  Hit "doc-1" [("text", JString "from the index")].

Definition two_pages : cluster :=
  Cluster [Response (Some "c1") [one_hit]; Response (Some "c2") []]
          1 (fun _ _ _ => []).

(** A store that answers the scroll search with a page without cursor. *)
Definition no_cursor : cluster :=
  Cluster [Response None []] 0 (fun _ _ _ => []).

(** An index of five documents; a windowed search returns the documents
    of the window. *)
Definition five_docs : list hit :=
  (fun i => Hit (dec i) [("text", JString (dec i))]) <$> seq 0 5.

Definition five : cluster :=
  Cluster [] 5
    (fun _ from_ size => take (Z.to_nat size) (drop (Z.to_nat from_) five_docs)).

Definition fs : gmap string (list string) :=
  list_to_map
    [ ("reviews.json", reviews);
      ("broken.json", broken);
      ("big.json", big);
      ("dump9200.json", reviews) ].

Definition w : world := World fs (fun _ => no_cursor).

Definition kw : kwargs :=
  Kwargs "text" None "docs" None false "item.item.content" "string".

End Samples.

(** ** More sample inputs *)

Module MoreSamples.

Import Fragment.

(** A cut line, a line that holds a JSON list, and a line with an
    object. *)
Definition list_line : string := "[1, 2]" +:+ Samples.nl.

Definition mixed : list string :=
  [ Samples.cut_line;
    list_line;
    "{" +:+ Samples.q "text" +:+ ": " +:+ Samples.q "after" +:+ "}" +:+ Samples.nl ].

Definition fs : gmap string (list string) :=
  <["mixed.json" := mixed]> Samples.fs.

Definition w : world := World fs (fun _ => Samples.no_cursor).

(** A store without documents: every windowed search comes back empty. *)
Definition empty_index : cluster :=
  Cluster [Response (Some "c0") []] 0 (fun _ _ _ => []).

(** A hit whose ["text"] is a dict with the key ["body"]. *)
Definition nested_hit : hit :=
  Hit "doc-2" [("text", JObject [("body", JString "nested")])].

Definition nested_then_flat : cluster :=
  Cluster [Response (Some "c1") [nested_hit; Samples.one_hit; nested_hit]]
          3 (fun _ _ _ => []).

(** A decoder for ASCII text, which is its own UTF-8 encoding; a byte
    above 127 is taken as undecodable. *)
Fixpoint decode_ascii (bytes : string) : option string :=
  match bytes with
  | EmptyString => Some EmptyString
  | String c rest =>
      if nat_of_ascii c <? 128
      then String c <$> decode_ascii rest
      else None
  end.

(** A folder with a text file and a compressed file, and a subfolder with
    a file that is not text. *)
Definition tree : disk :=
  Disk
    (fun folder =>
       if String.eqb folder "data"
       then [ ("data", ["sub"], ["a.txt"; "b.gz"]);
              ("data/sub", [], ["c.bin"]) ]
       else [])
    (fun gz fullpath =>
       if negb gz && String.eqb fullpath "data/a.txt" then inr "alpha"
       else if gz && String.eqb fullpath "data/b.gz" then inr "beta"
       else if negb gz && String.eqb fullpath "data/sub/c.bin"
       then inr (String "255"%char EmptyString)
       else inl IOError).

(** The same folder when [b.gz] is not a gzip file. *)
Definition damaged : disk :=
  Disk (walk tree)
    (fun gz fullpath =>
       if String.eqb fullpath "data/b.gz" then inl IOError
       else read_rb tree gz fullpath).

End MoreSamples.

(** ** Sample inputs for the resolver *)

Module ResolverSamples.



(** The JSON-lines reader of [readers.py] with the sample decoder. *)
Definition lines_reader : world -> string -> kwargs -> trace :=
  json_lines_reader Fragment.json_loads.

(** A file that starts with a cut line and goes on with an object. *)
Definition late : list string :=
  [ Samples.cut_line;
    "{" +:+ Samples.q "text" +:+ ": " +:+ Samples.q "after" +:+ "}" +:+ Samples.nl ].

Definition fs : gmap string (list string) :=
  <["late.json" := late]>
    (<["empty.json" := []]> (<["big9200.json" := Samples.big]> MoreSamples.fs)).

Definition w : world := World fs (fun _ => Samples.no_cursor).

End ResolverSamples.

(** ** Vocabulary of the properties *)

(** A line that holds one JSON object. *)
Definition object_line (json_loads : string -> option json) (line : string)
    : bool :=
  match json_loads line with
  | Some (JObject _) => true
  | _ => false
  end.

(** A line that [json.loads] rejects with [ValueError]. *)
Definition malformed_line (json_loads : string -> option json) (line : string)
    : bool :=
  match json_loads line with
  | None => true
  | Some _ => false
  end.

(** The record of line [n]: its identifier and the content under [field],
    [None] when the object has no such key. *)
Definition line_record (json_loads : string -> option json)
    (filename field : string) (n : nat) (line : string) : tuple :=
  Doc (line_id filename field n)
      match json_loads line with
      | Some (JObject dictionary) => dict_get dictionary field
      | _ => JNull
      end.

(** The first element of an iteration, if it has one. *)
Definition first_element (t : trace) : option tuple := head (yields t).

(** The windows [(from_, size)] of the windowed searches of an iteration,
    one for each search. *)
Definition searches (t : trace) : list (Z * Z) :=
  omap (fun e =>
          match e with
          | Send (SearchWindow _ _ from_ size) => Some (from_, size)
          | _ => None
          end) t.1.

(** The store returns at most [size] hits to a windowed search. *)
Definition honours_size (es : cluster) : Prop :=
  forall (k : nat) (from_ size : Z),
    (Z.of_nat (length (window es k from_ size)) <= Z.max 0 size)%Z.

(** The identifier that a query reader gives to every tuple. *)
Definition query_key (field : string) (subfield : option string) : string :=
  match subfield with
  | Some sub => slash field sub
  | None => field
  end.

(** [ceil(k / b)] for a positive [b]. *)
Definition ceil_div (k b : Z) : Z := ((k + b - 1) / b)%Z.

(** The event of line [n] when the line is malformed or holds an object. *)
Definition line_event (json_loads : string -> option json)
    (filename field : string) (n : nat) (line : string) : event :=
  if malformed_line json_loads line
  then Warn (UnableToProcessLine line)
  else Yield (line_record json_loads filename field n line).

(** A line on which [json.loads] returns something other than a dict. *)
Definition non_object_line (json_loads : string -> option json)
    (line : string) : bool :=
  negb (object_line json_loads line) && negb (malformed_line json_loads line).

(** The triple is one that [iter_large_json] selects. *)
Definition selected (prefix_value event_value : string)
    (triple : string * string * json) : bool :=
  String.eqb triple.1.1 prefix_value && String.eqb triple.1.2 event_value.

(** The hit is turned into a tuple without an exception. *)
Definition extractable (field : string) (subfield : option string)
    (include_id : bool) (h : hit) : bool :=
  match make_tuple field subfield include_id h with
  | inr _ => true
  | inl _ => false
  end.

(** The file is read and decoded, or fails with a [ValueError]. *)
Definition handled_file (d : disk) (directory file : string) : bool :=
  match read_rb d (str_endswith ".gz" file) (path_join directory file) with
  | inr _ | inl ValueError => true
  | inl _ => false
  end.

(** The full paths of all walked files, in the order of the walk. *)
Definition walked_paths (dirs : list (string * list string * list string))
    : list string :=
  dirs ≫= (fun t => path_join t.1.1 <$> t.2).

(** The hit is turned into a tuple, or fails with an exception that the
    query readers catch. *)
Definition recoverable (field : string) (subfield : option string)
    (include_id : bool) (h : hit) : bool :=
  match make_tuple field subfield include_id h with
  | inr _ => true
  | inl e => caught e
  end.

(** The tuples of the hits of a page that can be turned into tuples. *)
Definition page_tuples (field : string) (subfield : option string)
    (include_id : bool) (hs : list hit) : list tuple :=
  omap (fun h =>
          match make_tuple field subfield include_id h with
          | inr t => Some t
          | inl _ => None
          end) hs.

(** The call of [read_input] reaches the probe of the JSON-lines reader:
    the source type is ["json_stream"], or it is ["auto"] and the source
    contains neither port number and has a JSON extension. *)
Definition probed (source source_type : string) : bool :=
  String.eqb source_type "json_stream"
  || (String.eqb source_type "auto"
      && negb (str_in "8983" source)
      && negb (str_in "9200" source)
      && bool_decide ((splitext source).2 ∈ json_extensions)).

(** The source types that [read_input] knows. *)
Definition source_types : list string :=
  ["auto"; "solr"; "elastic"; "json_stream"; "large_json"; "folder"].

(** * Properties *)

(** ** Strings *)

Lemma length_append (a b : string) :
  String.length (a +:+ b) = String.length a + String.length b.
Proof. induction a as [|c a IH]; simpl; [reflexivity | now rewrite IH]. Qed.

Lemma append_inj_r (c a b : string) : a +:+ c = b +:+ c -> a = b.
Proof.
  revert b. induction a as [|x a IH]; intros [|y b] H; simpl in H.
  - reflexivity.
  - apply (f_equal String.length) in H. simpl in H.
    rewrite !length_append in H. simpl in H. lia.
  - apply (f_equal String.length) in H. simpl in H.
    rewrite !length_append in H. simpl in H. lia.
  - injection H as -> H. f_equal. now apply IH.
Qed.

Lemma dec_inj (n m : nat) : dec n = dec m -> n = m.
Proof.
  unfold dec. intros H. apply Unsigned.to_uint_inj.
  assert (Hs : Some (Nat.to_uint n) = Some (Nat.to_uint m))
    by (rewrite <- !NilEmpty.usu; now rewrite H).
  now injection Hs.
Qed.

Global Instance line_id_inj (filename field : string) :
  Inj (=) (=) (line_id filename field).
Proof.
  intros n m H. unfold line_id in H.
  do 4 apply String.app_inj in H.
  apply append_inj_r in H. now apply dec_inj.
Qed.

(** ** Traces *)

Lemma yields_emit_yield (t : tuple) (tr : trace) :
  yields (emit (Yield t) tr) = t :: yields tr.
Proof. reflexivity. Qed.

Lemma yields_emit_warn (w : warning) (tr : trace) :
  yields (emit (Warn w) tr) = yields tr.
Proof. reflexivity. Qed.

Lemma yields_emit_send (r : request) (tr : trace) :
  yields (emit (Send r) tr) = yields tr.
Proof. reflexivity. Qed.

Lemma requests_emit_send (r : request) (tr : trace) :
  requests (emit (Send r) tr) = r :: requests tr.
Proof. reflexivity. Qed.

Lemma yields_cat (a b : list event) (o : outcome) :
  yields (a ++ b, o) = yields (a, o) ++ yields (b, o).
Proof. apply omap_app. Qed.

Lemma warnings_cat (a b : list event) (o : outcome) :
  warnings (a ++ b, o) = warnings (a, o) ++ warnings (b, o).
Proof. apply omap_app. Qed.

Lemma yields_app (evs : list event) (tr : trace) :
  yields (evs ++ tr.1, tr.2) = yields (evs, Stop) ++ yields tr.
Proof. unfold yields. simpl. apply omap_app. Qed.

Lemma requests_app (evs : list event) (tr : trace) :
  requests (evs ++ tr.1, tr.2) = requests (evs, Stop) ++ requests tr.
Proof. unfold requests. simpl. apply omap_app. Qed.

(** [next] returns the first record of the trace whenever there is one. *)
Lemma next_first (tr : trace) (t : tuple) :
  first_element tr = Some t -> (next tr).2 = Got t.
Proof.
  destruct tr as [evs o]. unfold first_element, next, yields. simpl.
  induction evs as [|e evs IH]; simpl; [discriminate |].
  destruct e; simpl; intros H; [now injection H as -> | now apply IH ..].
Qed.

(** ** The JSON-lines reader *)

Section JsonLines.

Variable json_loads : string -> option json.
Variables filename field : string.

#[local] Abbreviation object_line := (object_line json_loads).
#[local] Abbreviation malformed_line := (malformed_line json_loads).
#[local] Abbreviation line_record := (line_record json_loads filename field).
#[local] Abbreviation stream := (json_stream_from json_loads filename field).

Lemma stream_objects (n : nat) (lines : list string) :
  Forall (fun line => object_line line = true) lines ->
  stream n lines = (imap (fun i line => Yield (line_record (n + i) line)) lines, Stop).
Proof.
  intros Hwf. revert n. induction Hwf as [|line lines Hline _ IH]; intros n.
  - reflexivity.
  - simpl. unfold object_line in Hline. unfold line_record at 1.
    destruct (json_loads line) as [[]|]; try discriminate.
    rewrite IH. unfold emit. simpl. rewrite Nat.add_0_r. do 2 f_equal.
    apply imap_ext. intros i x _. simpl. do 2 f_equal. lia.
Qed.

(** Lines that are objects or malformed never end the iteration. *)
Lemma stream_app (n : nat) (pre post : list string) :
  Forall (fun line => object_line line || malformed_line line = true) pre ->
  stream n (pre ++ post)
  = ((stream n pre).1 ++ (stream (n + length pre) post).1,
     (stream (n + length pre) post).2).
Proof.
  intros Hpre. revert n. induction Hpre as [|line pre Hline _ IH]; intros n.
  - simpl. rewrite Nat.add_0_r. now destruct (stream n post).
  - simpl. unfold object_line, malformed_line in Hline.
    replace (n + S (length pre)) with (S n + length pre) by lia.
    destruct (json_loads line) as [[]|]; try discriminate;
      rewrite IH; reflexivity.
Qed.

(** The identifiers yielded from line [n] on are those of distinct line
    numbers. *)
Lemma stream_ids (n : nat) (lines : list string) :
  exists idxs : list nat,
    tuple_id <$> yields (stream n lines) = line_id filename field <$> idxs
    /\ Forall (fun i => n <= i) idxs /\ NoDup idxs.
Proof.
  revert n. induction lines as [|line lines IH]; intros n.
  - exists []. repeat split; constructor.
  - simpl. destruct (IH (S n)) as (idxs & Hids & Hge & Hnd).
    destruct (json_loads line) as [[]|];
      try (exists []; repeat split; constructor).
    + exists (n :: idxs). rewrite yields_emit_yield, !fmap_cons, Hids.
      repeat split.
      * constructor; [lia |]. eapply Forall_impl; [exact Hge |].
        simpl. intros; lia.
      * constructor; [| exact Hnd]. intros Hin.
        rewrite Forall_forall in Hge. specialize (Hge _ Hin). lia.
    + exists idxs. rewrite yields_emit_warn. repeat split; [exact Hids | | exact Hnd].
      eapply Forall_impl; [exact Hge |]. simpl. intros; lia.
Qed.

End JsonLines.

Lemma yields_imap {A : Type} (f : nat -> A -> tuple) (l : list A) (o : outcome) :
  yields (imap (fun i x => Yield (f i x)) l, o) = imap f l.
Proof.
  unfold yields. simpl. revert f.
  induction l as [|x l IH]; intros f; [reflexivity |].
  rewrite !imap_cons. simpl. f_equal. apply (IH (f ∘ S)).
Qed.

Lemma warnings_imap {A : Type} (f : nat -> A -> tuple) (l : list A) (o : outcome) :
  warnings (imap (fun i x => Yield (f i x)) l, o) = [].
Proof.
  unfold warnings. simpl. revert f.
  induction l as [|x l IH]; intros f; [reflexivity |].
  rewrite !imap_cons. simpl. apply (IH (f ∘ S)).
Qed.

Lemma forallb_Forall {A : Type} (p : A -> bool) (l : list A) :
  forallb p l = true -> Forall (fun x => p x = true) l.
Proof.
  intros H. apply Forall_forall. intros x Hx.
  rewrite forallb_forall in H. apply H. now apply list_elem_of_In.
Qed.



(** C7: in a JSON-lines file of N lines of which exactly one is malformed,
    the reader yields the N-1 records of the other lines in order, each
    under its own line number, logs one warning, for the malformed line,
    and iterates to the end of the file. *)
Theorem json_stream_one_malformed (json_loads : string -> option json)
    (fs : gmap string (list string)) (filename field : string)
    (pre post : list string) (bad : string) :
  fs !! filename = Some (pre ++ bad :: post) ->
  forallb (object_line json_loads) pre = true ->
  malformed_line json_loads bad = true ->
  forallb (object_line json_loads) post = true ->
  let t := iter_document_json_stream json_loads fs filename field in
  t.2 = Stop
  /\ yields t
     = imap (line_record json_loads filename field) pre
       ++ imap (fun i => line_record json_loads filename field (S (length pre) + i)) post
  /\ S (length (yields t)) = length (pre ++ bad :: post)
  /\ warnings t = [UnableToProcessLine bad].
Proof.
  intros Hfile Hpre Hbad Hpost t.
  apply forallb_Forall in Hpre, Hpost.
  assert (Ht : t = (imap (fun i line => Yield (line_record json_loads filename field i line)) pre
                    ++ Warn (UnableToProcessLine bad)
                       :: imap (fun i line => Yield (line_record json_loads filename field
                                                      (S (length pre) + i) line)) post,
                    Stop)).
  { subst t. unfold iter_document_json_stream. rewrite Hfile.
    rewrite stream_app
      by (eapply Forall_impl; [exact Hpre |]; simpl; intros x ->; reflexivity).
    rewrite (stream_objects _ _ _ 0 pre) by exact Hpre.
    cbn [json_stream_from fst snd]. unfold malformed_line in Hbad.
    destruct (json_loads bad); [discriminate |].
    rewrite (stream_objects _ _ _ _ post) by exact Hpost.
    reflexivity. }
  rewrite Ht. clear Ht t.
  rewrite yields_cat, warnings_cat.
  change (Warn (UnableToProcessLine bad) :: ?l) with ([Warn (UnableToProcessLine bad)] ++ l).
  rewrite yields_cat, warnings_cat, !yields_imap, !warnings_imap.
  repeat split. simpl.
  rewrite !length_app, !length_imap. simpl. lia.
Qed.

Lemma json_stream_one_malformed_witness :
  let t := iter_document_json_stream Fragment.json_loads Samples.fs
             "broken.json" "text" in
  t.2 = Stop
  /\ yields t
     = [ Doc "broken.json/text[0]" (JString "incredible");
         Doc "broken.json/text[2]" (JString "topic models") ]
  /\ S (length (yields t)) = 3
  /\ warnings t = [UnableToProcessLine Samples.cut_line].
Proof.
  apply (json_stream_one_malformed Fragment.json_loads Samples.fs
           "broken.json" "text"
           (take 1 Samples.broken) (drop 2 Samples.broken) Samples.cut_line);
    reflexivity.
Defined.

(** C3, as the reader is written: a line that holds a JSON object without
    the requested field is not dropped; its record is yielded under the
    number of the line, with the content [None]. *)
Theorem json_stream_yields_absent_content (json_loads : string -> option json)
    (fs : gmap string (list string)) (filename field : string)
    (lines : list string) (n : nat) (line : string)
    (dictionary : list (string * json)) :
  fs !! filename = Some lines ->
  lines !! n = Some line ->
  json_loads line = Some (JObject dictionary) ->
  dict_lookup field dictionary = None ->
  forallb (fun l => object_line json_loads l || malformed_line json_loads l)
          (take n lines) = true ->
  Doc (line_id filename field n) JNull
    ∈ yields (iter_document_json_stream json_loads fs filename field).
Proof.
  intros Hfile Hn Hline Hfield Hpre.
  apply forallb_Forall in Hpre.
  unfold iter_document_json_stream. rewrite Hfile.
  rewrite <- (take_drop_middle lines n line Hn).
  rewrite stream_app by exact Hpre.
  rewrite length_take_le by (apply Nat.lt_le_incl; eapply lookup_lt_Some; exact Hn).
  cbn [json_stream_from Nat.add]. rewrite Hline.
  unfold dict_get. rewrite Hfield. cbn [default].
  rewrite yields_app, yields_emit_yield.
  apply elem_of_app. right. apply list_elem_of_here.
Qed.

Lemma json_stream_yields_absent_content_witness :
  Doc (line_id "reviews.json" "text" 2) JNull
    ∈ yields (iter_document_json_stream Fragment.json_loads Samples.fs
                "reviews.json" "text").
Proof.
  apply (json_stream_yields_absent_content Fragment.json_loads Samples.fs
           "reviews.json" "text" Samples.reviews 2
           ("{" +:+ Samples.q "id" +:+ ": 3}" +:+ Samples.nl)
           [("id", JInt 3)]); reflexivity.
Defined.

(** The reader yields a record whose content is [None]: the third line of
    the sample file is an object without ["text"]. *)
Lemma json_stream_none_content_yielded :
  yields (iter_document_json_stream Fragment.json_loads Samples.fs
            "reviews.json" "text")
  = [ Doc "reviews.json/text[0]" (JString "incredible");
      Doc "reviews.json/text[1]" (JString "big data");
      Doc "reviews.json/text[2]" JNull ].
Proof. reflexivity. Qed.

(** ** Identifiers *)

Section QueryIdentifiers.

Variables (field : string) (subfield : option string) (include_id : bool).

Lemma make_tuple_key (h : hit) (t : tuple) :
  make_tuple field subfield include_id h = inr t ->
  tuple_id t = query_key field subfield.
Proof.
  unfold make_tuple, query_key.
  destruct subfield as [sub|].
  - destruct (getitem (JObject (_source h)) field) as [e|v]; [discriminate |].
    destruct (getitem v sub) as [e|c]; [discriminate |].
    destruct include_id; intros [= <-]; reflexivity.
  - destruct (getitem (JObject (_source h)) field) as [e|c]; [discriminate |].
    destruct include_id; intros [= <-]; reflexivity.
Qed.

Lemma scroll_hits_keys (error_prints : nat) (hs : list hit) (o : outcome) :
  Forall (fun t => tuple_id t = query_key field subfield)
         (yields ((scroll_hits field subfield include_id error_prints hs).1, o)).
Proof.
  revert error_prints. induction hs as [|h hs IH]; intros error_prints.
  - constructor.
  - cbn [scroll_hits].
    destruct (make_tuple field subfield include_id h) as [e|t] eqn:Ht.
    + destruct (caught e); [| constructor].
      destruct (error_prints <? 10); [apply (IH (error_prints + 1)) | apply IH].
    + constructor; [now apply make_tuple_key in Ht | apply IH].
Qed.

Lemma scroll_loop_keys (fuel : nat) (resp : response) (error_prints : nat) :
  Forall (fun t => tuple_id t = query_key field subfield)
         (yields (scroll_loop field subfield include_id fuel resp error_prints)).
Proof.
  revert error_prints. induction fuel as [|fuel IH]; intros error_prints.
  - constructor.
  - cbn [scroll_loop].
    pose proof (scroll_hits_keys error_prints (hits resp) Stop) as Hpage.
    destruct (scroll_hits field subfield include_id error_prints (hits resp))
      as [evs [e|error_prints']]; [exact Hpage |].
    destruct (bool_decide (_scroll_id resp = None) || bool_decide (hits resp = []));
      [exact Hpage |].
    rewrite yields_app. apply Forall_app. split; [exact Hpage | apply IH].
Qed.

End QueryIdentifiers.

Lemma large_json_keys (prefix_value event_value : string)
    (triples : list (string * string * json)) (o : outcome) :
  Forall (fun t => tuple_id t = slash prefix_value event_value)
         (yields (large_json_from prefix_value event_value triples, o)).
Proof.
  induction triples as [|[[prefix ev] value] triples IH]; [constructor |].
  cbn [large_json_from]. destruct (decide _) as [[= -> ->]|]; [| exact IH].
  constructor; [reflexivity | exact IH].
Qed.

(** C2, as the readers are written: the identifiers that the JSON-lines
    reader yields in one iteration are pairwise distinct, while every
    record of the large-JSON reader has the identifier
    [<prefix_value>/<event_value>] and every tuple of the full-scroll
    reader the identifier [<field>] or [<field>/<subfield>]. *)
Theorem reader_identifiers (json_loads : string -> option json)
    (ijson_parse : list string -> list (string * string * json) * outcome)
    (fs : gmap string (list string)) (es : cluster) :
  (forall filename field : string,
     NoDup (tuple_id <$> yields (iter_document_json_stream json_loads fs filename field)))
  /\ (forall json_file prefix_value event_value : string,
        Forall (fun t => tuple_id t = slash prefix_value event_value)
               (yields (iter_large_json ijson_parse fs json_file prefix_value event_value)))
  /\ (forall (field : string) (subfield : option string) (include_id : bool)
             (fuel : nat) (index : string) (doc_type : option string),
        Forall (fun t => tuple_id t = query_key field subfield)
               (yields (iter_elastic_query field subfield include_id fuel es index doc_type))).
Proof.
  split; [| split].
  - intros filename field. unfold iter_document_json_stream.
    destruct (fs !! filename) as [lines|]; [| constructor].
    destruct (stream_ids json_loads filename field 0 lines) as (idxs & -> & _ & Hnd).
    now apply NoDup_fmap_2; [apply line_id_inj |].
  - intros json_file prefix_value event_value. unfold iter_large_json.
    destruct (fs !! json_file) as [lines|]; [| constructor].
    apply large_json_keys.
  - intros field subfield include_id fuel index doc_type.
    unfold iter_elastic_query.
    destruct (pages es) as [|resp rest]; [constructor |].
    rewrite yields_emit_send.
    destruct (_scroll_id resp); [apply scroll_loop_keys | constructor].
Qed.

(** The large-JSON reader gives the two items of the sample document the
    same identifier. *)
Lemma large_json_identifier_repeated :
  yields (iter_large_json Fragment.ijson_parse Samples.fs "big.json"
            "item.item.content" "string")
  = [ Doc "item.item.content/string" (JString "a");
      Doc "item.item.content/string" (JString "b") ]
  /\ ~ NoDup (tuple_id <$>
               yields (iter_large_json Fragment.ijson_parse Samples.fs "big.json"
                         "item.item.content" "string")).
Proof.
  split; [reflexivity |].
  intros Hnd. apply NoDup_cons_1_1 in Hnd. apply Hnd. apply list_elem_of_here.
Qed.

(** ** The full-scroll reader *)

Section FullScroll.

Variables (field : string) (subfield : option string) (include_id : bool).

#[local] Abbreviation loop := (scroll_loop field subfield include_id).
#[local] Abbreviation page := (scroll_hits field subfield include_id).

Lemma scroll_hits_requests (error_prints : nat) (hs : list hit) (o : outcome) :
  requests ((page error_prints hs).1, o) = [].
Proof.
  revert error_prints. induction hs as [|h hs IH]; intros error_prints.
  - reflexivity.
  - cbn [scroll_hits]. destruct (make_tuple field subfield include_id h) as [e|t].
    + destruct (caught e); [| reflexivity].
      destruct (error_prints <? 10); [apply (IH (error_prints + 1)) | apply IH].
    + apply IH.
Qed.

(** The loop sends nothing: in particular it never asks for a next page. *)
Lemma scroll_loop_requests (fuel : nat) (resp : response) (error_prints : nat) :
  requests (loop fuel resp error_prints) = [].
Proof.
  revert error_prints. induction fuel as [|fuel IH]; intros error_prints.
  - reflexivity.
  - cbn [scroll_loop].
    pose proof (scroll_hits_requests error_prints (hits resp) Stop) as Hpage.
    destruct (page error_prints (hits resp)) as [evs [e|error_prints']];
      [exact Hpage |].
    destruct (bool_decide (_scroll_id resp = None) || bool_decide (hits resp = []));
      [exact Hpage |].
    rewrite requests_app, IH, app_nil_r. exact Hpage.
Qed.

(** A first page with a cursor and at least one hit is processed again and
    again: the loop does not return. *)
Lemma scroll_loop_never_stops (fuel : nat) (resp : response) (error_prints : nat) :
  _scroll_id resp <> None -> hits resp <> [] ->
  (loop fuel resp error_prints).2 <> Stop.
Proof.
  intros Hcursor Hhits. revert error_prints.
  induction fuel as [|fuel IH]; intros error_prints; [discriminate |].
  cbn [scroll_loop].
  destruct (page error_prints (hits resp)) as [evs [e|error_prints']];
    [discriminate |].
  rewrite !bool_decide_eq_false_2 by assumption. apply IH.
Qed.

(** A first response without cursor ends the iteration at once, whatever
    the fuel. *)
Lemma iter_elastic_query_no_cursor (fuel : nat) (es : cluster) (resp : response)
    (rest : list response) (index : string) (doc_type : option string) :
  pages es = resp :: rest -> _scroll_id resp = None ->
  iter_elastic_query field subfield include_id fuel es index doc_type
  = ([Send (Search index doc_type)], Stop).
Proof. intros Hp Hc. unfold iter_elastic_query. now rewrite Hp, Hc. Qed.

(** The iteration returns exactly when the first response has no cursor
    or no hits; the later pages of the store play no part. *)
Lemma iter_elastic_query_stops_iff (es : cluster) (resp : response)
    (rest : list response) (index : string) (doc_type : option string) :
  pages es = resp :: rest ->
  (exists fuel,
     (iter_elastic_query field subfield include_id fuel es index doc_type).2 = Stop)
  <-> _scroll_id resp = None \/ hits resp = [].
Proof.
  intros Hp. unfold iter_elastic_query. rewrite Hp. split.
  - intros [fuel Hstop]. cbn [emit snd] in Hstop.
    destruct (_scroll_id resp) as [cursor|] eqn:Hc; [| now left].
    right. destruct (hits resp) as [|h hs] eqn:Hh; [reflexivity |].
    exfalso. revert Hstop. apply scroll_loop_never_stops; rewrite ?Hc, ?Hh; discriminate.
  - intros [Hc | Hh].
    + exists 0. now rewrite Hc.
    + exists 1. destruct (_scroll_id resp); [| reflexivity].
      cbn [emit snd scroll_loop]. rewrite Hh. cbn [scroll_hits].
      now rewrite (bool_decide_eq_true_2 ([] = [])), orb_true_r.
Qed.

End FullScroll.

(** C1, on a store that answers the scroll search with a page of one hit
    and a cursor and would answer the next request with the empty page:
    the reader sends the one search and no request for a next page, yields
    the hit of the first page once for each round of its loop, and does
    not return however long it runs. *)
Theorem full_scroll_repeats_first_page (fuel : nat) :
  let t := iter_elastic_query "text" None false fuel Samples.two_pages "docs" None in
  t.2 = Running
  /\ requests t = [Search "docs" None]
  /\ yields t = replicate fuel (Doc "text" (JString "from the index")).
Proof.
  unfold iter_elastic_query. cbn [pages Samples.two_pages _scroll_id].
  split; [| split].
  - cbn [emit snd]. induction fuel as [|fuel IH]; [reflexivity | exact IH].
  - now rewrite requests_emit_send, scroll_loop_requests.
  - rewrite yields_emit_send.
    induction fuel as [|fuel IH]; [reflexivity |].
    cbn [scroll_loop replicate]. cbn. f_equal. exact IH.
Qed.

(** ** The source resolver *)

(** What [next] gets from a generator that yields no record: all its
    events, and the way it ends. *)
Lemma next_no_record (tr : trace) :
  first_element tr = None ->
  next tr
  = (tr.1, match tr.2 with
           | Stop => Raised StopIteration
           | Raise e => Raised e
           | Running => Pending
           end).
Proof.
  destruct tr as [evs o]. unfold first_element, yields, next. cbn [fst snd].
  induction evs as [|e evs IH]; [reflexivity |].
  destruct e; cbn; try discriminate; intros H; now rewrite (IH H).
Qed.




(** C8: a source that contains ["9200"] and not ["8983"] is resolved to the
    Elasticsearch reader under the source type ["auto"], whatever its
    extension, and without a probe. *)
Theorem read_input_auto_elastic
    (registered_json_stream : world -> string -> kwargs -> trace) (w : world)
    (source content_field : string) (kw : kwargs) :
  str_in "9200" source = true ->
  str_in "8983" source = false ->
  read_input registered_json_stream w source "auto" content_field kw
  = ([], Returns (read_elastic source kw)).
Proof.
  intros H9200 H8983. unfold read_input. rewrite H8983, H9200. reflexivity.
Qed.

Lemma read_input_auto_elastic_witness :
  (splitext "localhost:9200/docs.json").2 = ".json"
  /\ read_input ResolverSamples.lines_reader Samples.w "localhost:9200/docs.json"
       "auto" "text" Samples.kw
     = ([], Returns (read_elastic "localhost:9200/docs.json" Samples.kw)).
Proof.
  split; [reflexivity |].
  apply (read_input_auto_elastic ResolverSamples.lines_reader Samples.w
           "localhost:9200/docs.json" "text" Samples.kw); reflexivity.
Defined.

(** C6, as the resolver is written: for a source with the extension [.js]
    or [.json] that contains neither ["8983"] nor ["9200"], and on which
    the JSON-lines reader yields a first record, [read_input] with the
    source type ["auto"] returns the JSON-lines reader built anew on that
    source; iterating it gives the very trace of the direct call, so its
    first element is that record.  The JSON-lines reader is the reader
    registered as [read_json_stream], whichever it is. *)
Theorem read_input_auto_json_first
    (registered_json_stream : world -> string -> kwargs -> trace)
    (ijson_parse : list string -> list (string * string * json) * outcome)
    (w : world) (source content_field : string) (kw : kwargs) (t : tuple) :
  bool_decide ((splitext source).2 ∈ json_extensions) = true ->
  str_in "8983" source = false ->
  str_in "9200" source = false ->
  first_element (registered_json_stream w source kw) = Some t ->
  exists it,
    (read_input registered_json_stream w source "auto" content_field kw).2
    = Returns it
    /\ forall fuel,
         iterate registered_json_stream ijson_parse fuel w it
         = Some (registered_json_stream w source kw)
         /\ first_element <$> iterate registered_json_stream ijson_parse fuel w it
            = Some (Some t).
Proof.
  intros Hext H8983 H9200 Hfirst. exists (read_json_stream source kw).
  split.
  - unfold read_input. rewrite H8983, H9200, Hext.
    cbn [String.eqb Ascii.eqb Bool.eqb andb orb].
    pose proof (next_first _ _ Hfirst) as Hnext. unfold probe.
    destruct (next _) as [evs p]. simpl in Hnext. now rewrite Hnext.
  - intros fuel. cbn [iterate]. split; [reflexivity |].
    cbn. now rewrite Hfirst.
Qed.

Lemma read_input_auto_json_first_witness :
  exists it,
    (read_input (json_lines_reader Fragment.json_loads) Samples.w "reviews.json"
       "auto" "text" Samples.kw).2 = Returns it
    /\ forall fuel,
         iterate (json_lines_reader Fragment.json_loads) Fragment.ijson_parse
           fuel Samples.w it
         = Some (iter_document_json_stream Fragment.json_loads Samples.fs
                   "reviews.json" "text")
         /\ first_element <$>
              iterate (json_lines_reader Fragment.json_loads) Fragment.ijson_parse
                fuel Samples.w it
            = Some (Some (Doc "reviews.json/text[0]" (JString "incredible"))).
Proof.
  apply (read_input_auto_json_first (json_lines_reader Fragment.json_loads)
           Fragment.ijson_parse Samples.w "reviews.json" "text" Samples.kw
           (Doc "reviews.json/text[0]" (JString "incredible"))); reflexivity.
Defined.

(** A source that ends in [.json] and contains ["9200"]: [read_input]
    returns the Elasticsearch reader, whose iteration ends without an
    element, while the JSON-lines reader on the same source yields the
    record of line 0. *)
Lemma read_input_json_suffix_elastic :
  (splitext "dump9200.json").2 = ".json"
  /\ read_input (json_lines_reader Fragment.json_loads) Samples.w "dump9200.json"
       "auto" "text" Samples.kw
     = ([], Returns (read_elastic "dump9200.json" Samples.kw))
  /\ iterate (json_lines_reader Fragment.json_loads) Fragment.ijson_parse 0
       Samples.w (read_elastic "dump9200.json" Samples.kw)
     = Some ([Send (Search "docs" None)], Stop)
  /\ first_element ([Send (Search "docs" None)], Stop) = None
  /\ first_element (iter_document_json_stream Fragment.json_loads Samples.fs
                      "dump9200.json" "text")
     = Some (Doc "dump9200.json/text[0]" (JString "incredible")).
Proof. repeat split. Qed.

(** ** The random-sample reader *)

Lemma searches_emit_search (index doc_type : string) (from_ size : Z) (tr : trace) :
  searches (emit (Send (SearchWindow index doc_type from_ size)) tr)
  = (from_, size) :: searches tr.
Proof. reflexivity. Qed.

Lemma searches_app (evs : list event) (tr : trace) :
  searches (evs ++ tr.1, tr.2) = searches (evs, Stop) ++ searches tr.
Proof. apply omap_app. Qed.

Section RandomSample.

Variables (field : string) (subfield : option string) (include_id : bool).
Variables (randint : nat -> Z) (es : cluster) (index : string).
Variables (batch_size n_samples : Z).

#[local] Abbreviation batch := (sample_hits field subfield include_id).
#[local] Abbreviation sampling :=
  (sample_loop field subfield include_id randint es index batch_size n_samples).

(** One batch: it sends nothing, yields at most one tuple for each hit and
    adds the number of yielded tuples to [sampled]. *)
Lemma sample_hits_count (sampled : Z) (error_prints : nat) (hs : list hit) :
  let r := batch sampled error_prints hs in
  searches (r.1, Stop) = []
  /\ length (yields (r.1, Stop)) <= length hs
  /\ forall sampled' error_prints',
       r.2 = inr (sampled', error_prints') ->
       sampled' = (sampled + Z.of_nat (length (yields (r.1, Stop))))%Z.
Proof.
  revert sampled error_prints.
  induction hs as [|h hs IH]; intros sampled error_prints.
  - cbn. repeat split; [lia |]. intros ? ? [= <- _]. lia.
  - cbn [sample_hits].
    destruct (make_tuple field subfield include_id h) as [e|t].
    + destruct (caught e).
      * destruct (error_prints <? 10).
        -- destruct (IH sampled (error_prints + 1)) as (Hs & Hl & Hc).
           cbn [fst snd length].
           change (Warn ?w :: ?l, Stop) with (emit (Warn w) (l, Stop)).
           rewrite yields_emit_warn.
           repeat split; [exact Hs | lia | exact Hc].
        -- destruct (IH sampled error_prints) as (Hs & Hl & Hc).
           cbn [length]. repeat split; [exact Hs | lia | exact Hc].
      * cbn. repeat split; [lia | discriminate].
    + destruct (IH (sampled + 1)%Z error_prints) as (Hs & Hl & Hc).
      cbn [fst snd length].
      change (Yield t :: ?l, Stop) with (emit (Yield t) (l, Stop)).
      rewrite yields_emit_yield. cbn [length].
      repeat split; [exact Hs | lia |].
      intros sampled' error_prints' Hr. rewrite (Hc _ _ Hr). lia.
Qed.

Lemma random_in_range_size (k : nat) (r siz : Z) :
  random_in_range randint es batch_size k = inr (r, siz) ->
  (siz <= batch_size)%Z.
Proof.
  unfold random_in_range. destruct (count es <? 0)%Z; [discriminate |].
  destruct (randint k <? 0)%Z eqn:Hneg; intros [= <- <-]; lia.
Qed.

Hypothesis Hsize : honours_size es.

(** A loop that has returned: the count has reached the target, went past
    it by less than one batch, and took the searches that this needs. *)
Lemma sample_loop_count (fuel k : nat) (sampled : Z) (error_prints : nat) :
  let t := sampling fuel k sampled error_prints in
  t.2 = Stop ->
  (n_samples <= sampled + Z.of_nat (length (yields t)))%Z
  /\ (sampled + Z.of_nat (length (yields t))
      <= Z.max sampled (n_samples + batch_size - 1))%Z
  /\ (Z.of_nat (length (yields t))
      <= Z.max 0 batch_size * Z.of_nat (length (searches t)))%Z.
Proof.
  revert k sampled error_prints.
  induction fuel as [|fuel IH]; intros k sampled error_prints; cbv zeta;
    [discriminate |].
  cbn [sample_loop]. destruct (sampled <? n_samples)%Z eqn:Hlt.
  - destruct (random_in_range randint es batch_size k) as [e|[r siz]] eqn:Hr;
      [discriminate |].
    apply random_in_range_size in Hr.
    destruct (sample_hits_count sampled error_prints (window es k r siz))
      as (Hs & Hl & Hc).
    specialize (Hsize k r siz).
    destruct (batch sampled error_prints (window es k r siz))
      as [evs [e|[sampled' error_prints']]]; [discriminate |].
    cbn [fst snd] in Hs, Hl, Hc. specialize (Hc _ _ eq_refl).
    intros Hstop. cbn [emit snd] in Hstop.
    destruct (IH (S k) sampled' error_prints' Hstop) as (Ha & Hb & Hq).
    rewrite yields_emit_send, searches_emit_search, yields_app, searches_app.
    cbn [fst snd]. rewrite Hs. cbn [app]. rewrite length_app. cbn [length].
    apply Z.ltb_lt in Hlt. repeat split; nia.
  - intros _. cbn. apply Z.ltb_ge in Hlt. lia.
Qed.

End RandomSample.

Lemma ceil_div_le (k b q : Z) :
  (0 < b)%Z -> (k <= b * q)%Z -> (ceil_div k b <= q)%Z.
Proof.
  intros Hb Hk. unfold ceil_div.
  apply Z.lt_succ_r, Z.div_lt_upper_bound; lia.
Qed.

(** C9: when the random-sample reader is asked for K samples in batches of
    size B, with B < K, an iteration that comes to its end has made at
    least ceil(K/B) searches and yielded at least K tuples. *)
Theorem random_sample_at_least (field : string) (subfield : option string)
    (include_id : bool) (randint : nat -> Z) (es : cluster) (index : string)
    (batch_size n_samples : Z) (fuel : nat) (doc_type : option string) :
  honours_size es ->
  (0 < batch_size)%Z ->
  (batch_size < n_samples)%Z ->
  let t := random_elastic_query field subfield include_id randint es index
             batch_size n_samples fuel doc_type in
  t.2 = Stop ->
  (n_samples <= Z.of_nat (length (yields t)))%Z
  /\ (ceil_div n_samples batch_size <= Z.of_nat (length (searches t)))%Z.
Proof.
  intros Hsize Hb Hk t Hstop. subst t. unfold random_elastic_query in *.
  cbn [emit snd] in Hstop.
  destruct (sample_loop_count field subfield include_id randint es index
              batch_size n_samples Hsize fuel 0 0%Z 0 Hstop) as (Ha & _ & Hq).
  rewrite yields_emit_send.
  change (searches (emit (Send (Count index doc_type)) ?tr)) with (searches tr).
  split; [lia |]. apply ceil_div_le; lia.
Qed.

(** C10: an iteration of the random-sample reader that comes to its end
    has yielded at most n_samples + batch_size - 1 tuples. *)
Theorem random_sample_at_most (field : string) (subfield : option string)
    (include_id : bool) (randint : nat -> Z) (es : cluster) (index : string)
    (batch_size n_samples : Z) (fuel : nat) (doc_type : option string) :
  honours_size es ->
  (0 < batch_size)%Z ->
  (0 <= n_samples)%Z ->
  let t := random_elastic_query field subfield include_id randint es index
             batch_size n_samples fuel doc_type in
  t.2 = Stop ->
  (Z.of_nat (length (yields t)) <= n_samples + batch_size - 1)%Z.
Proof.
  intros Hsize Hb Hk t Hstop. subst t. unfold random_elastic_query in *.
  cbn [emit snd] in Hstop.
  destruct (sample_loop_count field subfield include_id randint es index
              batch_size n_samples Hsize fuel 0 0%Z 0 Hstop) as (_ & Hmost & _).
  rewrite yields_emit_send. lia.
Qed.

Lemma five_honours_size : honours_size Samples.five.
Proof.
  intros k from_ size. cbn [window Samples.five].
  rewrite length_take. lia.
Qed.

Lemma random_sample_at_least_witness :
  let t := random_elastic_query "text" None false (fun k => Z.of_nat k)
             Samples.five "docs" 2 3 10 None in
  (3 <= Z.of_nat (length (yields t)))%Z
  /\ (ceil_div 3 2 <= Z.of_nat (length (searches t)))%Z.
Proof.
  apply (random_sample_at_least "text" None false (fun k => Z.of_nat k)
           Samples.five "docs" 2 3 10 None);
    [exact five_honours_size | reflexivity ..].
Defined.

Lemma random_sample_at_most_witness :
  let t := random_elastic_query "text" None false (fun k => Z.of_nat k)
             Samples.five "docs" 2 3 10 None in
  (Z.of_nat (length (yields t)) <= 3 + 2 - 1)%Z.
Proof.
  apply (random_sample_at_most "text" None false (fun k => Z.of_nat k)
           Samples.five "docs" 2 3 10 None);
    [exact five_honours_size | lia | lia | reflexivity].
Defined.

(** * Further properties of the readers *)

Lemma warnings_emit_yield (t : tuple) (tr : trace) :
  warnings (emit (Yield t) tr) = warnings tr.
Proof. reflexivity. Qed.

Lemma warnings_emit_warn (w : warning) (tr : trace) :
  warnings (emit (Warn w) tr) = w :: warnings tr.
Proof. reflexivity. Qed.

Lemma warnings_emit_send (r : request) (tr : trace) :
  warnings (emit (Send r) tr) = warnings tr.
Proof. reflexivity. Qed.

Lemma warnings_app (evs : list event) (tr : trace) :
  warnings (evs ++ tr.1, tr.2) = warnings (evs, Stop) ++ warnings tr.
Proof. apply omap_app. Qed.

(** ** The JSON-lines reader, line by line *)

Section JsonLinesAccount.

Variable json_loads : string -> option json.
Variables filename field : string.

#[local] Abbreviation stream' := (json_stream_from json_loads filename field).
#[local] Abbreviation usable line :=
  (object_line json_loads line || malformed_line json_loads line).

Lemma stream_events (n : nat) (lines : list string) :
  Forall (fun line => usable line = true) lines ->
  stream' n lines
  = (imap (fun i => line_event json_loads filename field (n + i)) lines, Stop).
Proof.
  intros Hok. revert n. induction Hok as [|line lines Hline _ IH]; intros n.
  - reflexivity.
  - cbn [json_stream_from]. rewrite imap_cons, Nat.add_0_r.
    unfold object_line, malformed_line in Hline.
    unfold line_event at 1, line_record, malformed_line.
    destruct (json_loads line) as [[]|]; try discriminate;
      rewrite IH; unfold emit; cbn [fst snd]; do 2 f_equal;
      apply imap_ext; intros i x _; cbn; f_equal; lia.
Qed.

Lemma stream_tally (n : nat) (lines : list string) :
  Forall (fun line => usable line = true) lines ->
  length (yields (stream' n lines)) + length (warnings (stream' n lines))
  = length lines
  /\ warnings (stream' n lines)
     = UnableToProcessLine <$> List.filter (malformed_line json_loads) lines.
Proof.
  intros Hok. revert n. induction Hok as [|line lines Hline _ IH]; intros n.
  - split; reflexivity.
  - cbn [json_stream_from List.filter]. destruct (IH (S n)) as [Hlen Hw].
    unfold object_line, malformed_line in *.
    destruct (json_loads line) as [[]|]; try discriminate.
    + rewrite yields_emit_yield, warnings_emit_yield.
      split; [cbn [length]; lia | exact Hw].
    + rewrite yields_emit_warn, warnings_emit_warn.
      split; [cbn [length]; lia | now rewrite Hw].
Qed.

End JsonLinesAccount.

(** X1: when every line of the file holds a JSON object or is malformed,
    the reader goes through the whole file: line i gives the record with
    number i or the warning for that line, in the order of the lines;
    yielded records and warnings add up to the number of lines, and the
    warnings are the malformed lines in order. *)
Theorem json_stream_accounts_for_every_line
    (json_loads : string -> option json) (fs : gmap string (list string))
    (filename field : string) (lines : list string) :
  fs !! filename = Some lines ->
  forallb (fun line => object_line json_loads line || malformed_line json_loads line)
          lines = true ->
  let t := iter_document_json_stream json_loads fs filename field in
  t = (imap (line_event json_loads filename field) lines, Stop)
  /\ length (yields t) + length (warnings t) = length lines
  /\ warnings t
     = UnableToProcessLine <$> List.filter (malformed_line json_loads) lines.
Proof.
  intros Hfile Hok t. subst t. apply forallb_Forall in Hok.
  unfold iter_document_json_stream. rewrite Hfile.
  split; [| now apply stream_tally].
  rewrite stream_events by exact Hok. reflexivity.
Qed.

Lemma json_stream_accounts_for_every_line_witness :
  let t := iter_document_json_stream Fragment.json_loads Samples.fs
             "broken.json" "text" in
  t = (imap (line_event Fragment.json_loads "broken.json" "text") Samples.broken,
       Stop)
  /\ length (yields t) + length (warnings t) = length Samples.broken
  /\ warnings t
     = UnableToProcessLine
         <$> List.filter (malformed_line Fragment.json_loads) Samples.broken.
Proof.
  apply (json_stream_accounts_for_every_line Fragment.json_loads Samples.fs
           "broken.json" "text" Samples.broken); reflexivity.
Defined.

(** X2: a line on which [json.loads] returns something other than a dict
    (a list, a number, a string, [null]) ends the iteration with
    [AttributeError]: the lines before it are handled as usual and the
    lines after it are never looked at. *)
Theorem json_stream_non_object_aborts
    (json_loads : string -> option json) (fs : gmap string (list string))
    (filename field : string) (pre post : list string) (line : string) :
  fs !! filename = Some (pre ++ line :: post) ->
  forallb (fun l => object_line json_loads l || malformed_line json_loads l)
          pre = true ->
  non_object_line json_loads line = true ->
  iter_document_json_stream json_loads fs filename field
  = (imap (line_event json_loads filename field) pre, Raise AttributeError).
Proof.
  intros Hfile Hpre Hline. apply forallb_Forall in Hpre.
  unfold iter_document_json_stream. rewrite Hfile.
  rewrite stream_app by exact Hpre.
  rewrite stream_events by exact Hpre.
  cbn [json_stream_from fst snd].
  unfold non_object_line, object_line, malformed_line in Hline.
  destruct (json_loads line) as [[]|]; try discriminate;
    cbn [fst snd]; now rewrite app_nil_r.
Qed.

Lemma json_stream_non_object_aborts_witness :
  iter_document_json_stream Fragment.json_loads MoreSamples.fs "mixed.json" "text"
  = ([Warn (UnableToProcessLine Samples.cut_line)], Raise AttributeError).
Proof.
  apply (json_stream_non_object_aborts Fragment.json_loads MoreSamples.fs
           "mixed.json" "text" [Samples.cut_line] (drop 2 MoreSamples.mixed)
           MoreSamples.list_line); reflexivity.
Defined.

(** ** The large-JSON reader *)

Lemma large_json_from_selected (prefix_value event_value : string)
    (triples : list (string * string * json)) :
  large_json_from prefix_value event_value triples
  = (fun triple => Yield (Doc (slash prefix_value event_value) triple.2))
      <$> List.filter (selected prefix_value event_value) triples.
Proof.
  induction triples as [|[[prefix ev] value] triples IH]; [reflexivity |].
  cbn [large_json_from List.filter]. unfold selected at 1. cbn [fst snd].
  destruct (decide _) as [[= -> ->]|Hne].
  - rewrite !String.eqb_refl. cbn [andb]. now rewrite fmap_cons, IH.
  - destruct (String.eqb prefix prefix_value) eqn:Hp;
      destruct (String.eqb ev event_value) eqn:He; cbn [andb]; try exact IH.
    apply String.eqb_eq in Hp, He. now subst.
Qed.

(** X3: on a file that can be opened, the large-JSON reader yields one
    record for each triple of the parser whose prefix and event are the
    requested ones, in the order of the parse and with the value of the
    triple as content; it emits nothing else, and it ends as the parser
    ends, so that an error of the parser leaves the reader after the
    records found before it. *)
Theorem large_json_yields_selected
    (ijson_parse : list string -> list (string * string * json) * outcome)
    (fs : gmap string (list string))
    (json_file prefix_value event_value : string) (f : list string) :
  fs !! json_file = Some f ->
  let t := iter_large_json ijson_parse fs json_file prefix_value event_value in
  yields t
  = (fun triple => Doc (slash prefix_value event_value) triple.2)
      <$> List.filter (selected prefix_value event_value) (ijson_parse f).1
  /\ t.1 = Yield <$> yields t
  /\ t.2 = (ijson_parse f).2.
Proof.
  intros Hfile t. subst t. unfold iter_large_json. rewrite Hfile.
  cbn [fst snd]. rewrite large_json_from_selected.
  assert (Hy : forall (l : list (string * string * json)) o,
             yields ((fun triple => Yield (Doc (slash prefix_value event_value) triple.2))
                       <$> l, o)
             = (fun triple => Doc (slash prefix_value event_value) triple.2) <$> l).
  { intros l o. unfold yields. cbn [fst].
    induction l as [|x l IH]; [reflexivity |]. simpl. f_equal. exact IH. }
  rewrite Hy. repeat split. now rewrite <- list_fmap_compose.
Qed.

Lemma large_json_yields_selected_witness :
  let t := iter_large_json Fragment.ijson_parse Samples.fs "big.json"
             "item.item.content" "string" in
  yields t
  = (fun triple => Doc (slash "item.item.content" "string") triple.2)
      <$> List.filter (selected "item.item.content" "string")
            (Fragment.ijson_parse Samples.big).1
  /\ t.1 = Yield <$> yields t
  /\ t.2 = (Fragment.ijson_parse Samples.big).2.
Proof.
  apply (large_json_yields_selected Fragment.ijson_parse Samples.fs "big.json"
           "item.item.content" "string" Samples.big); reflexivity.
Defined.

(** ** Extraction of a hit *)

(** X4: turning a hit into a tuple fails in two ways only.  [KeyError]
    when the document has no [field], or when a subfield is asked for and
    the value under [field] is a dict without it; [TypeError] when a
    subfield is asked for and the value under [field] is not a dict. *)
Theorem make_tuple_errors (field : string) (subfield : option string)
    (include_id : bool) (h : hit) (e : exn) :
  make_tuple field subfield include_id h = inl e ->
  (e = KeyError
   /\ (dict_lookup field (_source h) = None
       \/ exists sub items,
            subfield = Some sub
            /\ dict_lookup field (_source h) = Some (JObject items)
            /\ dict_lookup sub items = None))
  \/ (e = TypeError
      /\ exists sub v,
           subfield = Some sub
           /\ dict_lookup field (_source h) = Some v
           /\ getitem v sub = inl TypeError).
Proof.
  unfold make_tuple. cbn [getitem].
  destruct (dict_lookup field (_source h)) as [v|] eqn:Hf.
  - destruct subfield as [sub|]; [| destruct include_id; discriminate].
    destruct (getitem v sub) as [e'|c] eqn:Hv;
      [| destruct include_id; discriminate].
    intros [= <-]. destruct v as [|b|z|s|elems|items]; cbn [getitem] in Hv;
      try (injection Hv as <-; right; split; [reflexivity |];
           eexists _, _; repeat split).
    destruct (dict_lookup sub items) eqn:Hs; [discriminate |].
    injection Hv as <-. left. split; [reflexivity |]. right.
    now exists sub, items.
  - destruct subfield; intros [= <-]; left; split; auto.
Qed.

Lemma make_tuple_errors_witness :
  (TypeError = KeyError
   /\ (dict_lookup "text" (_source Samples.one_hit) = None
       \/ exists sub items,
            Some "body" = Some sub
            /\ dict_lookup "text" (_source Samples.one_hit) = Some (JObject items)
            /\ dict_lookup sub items = None))
  \/ (TypeError = TypeError
      /\ exists sub v,
           Some "body" = Some sub
           /\ dict_lookup "text" (_source Samples.one_hit) = Some v
           /\ getitem v sub = inl TypeError).
Proof.
  apply (make_tuple_errors "text" (Some "body") false Samples.one_hit TypeError).
  reflexivity.
Defined.

(** X5: a hit that is turned into a tuple carries the value found under
    [field], or under [subfield] of the dict under [field], and, with
    [include_id], the [_id] of the hit in front. *)
Theorem make_tuple_content (field : string) (subfield : option string)
    (include_id : bool) (h : hit) (t : tuple) :
  make_tuple field subfield include_id h = inr t ->
  exists c,
    t = (if include_id
         then DocWithId (_id h) (query_key field subfield) c
         else Doc (query_key field subfield) c)
    /\ match subfield with
       | None => dict_lookup field (_source h) = Some c
       | Some sub =>
           exists items,
             dict_lookup field (_source h) = Some (JObject items)
             /\ dict_lookup sub items = Some c
       end.
Proof.
  unfold make_tuple, query_key. cbn [getitem].
  destruct (dict_lookup field (_source h)) as [v|] eqn:Hf.
  - destruct subfield as [sub|].
    + destruct v as [|b|z|s|elems|items]; cbn [getitem]; try discriminate.
      destruct (dict_lookup sub items) as [c|] eqn:Hs; [| discriminate].
      intros [= <-]. exists c. split; [reflexivity | now exists items].
    + intros [= <-]. now exists v.
  - destruct subfield; discriminate.
Qed.

Lemma make_tuple_content_witness :
  exists c,
    DocWithId "doc-2" "text/body" (JString "nested")
    = DocWithId (_id MoreSamples.nested_hit) (query_key "text" (Some "body")) c
    /\ exists items,
         dict_lookup "text" (_source MoreSamples.nested_hit) = Some (JObject items)
         /\ dict_lookup "body" items = Some c.
Proof.
  apply (make_tuple_content "text" (Some "body") true MoreSamples.nested_hit
           (DocWithId "doc-2" "text/body" (JString "nested"))).
  reflexivity.
Defined.

(** ** The full-scroll reader, round by round *)

Lemma yields_cons (e : event) (l : list event) (o : outcome) :
  yields (e :: l, o)
  = match e with Yield t => t :: yields (l, o) | _ => yields (l, o) end.
Proof. now destruct e. Qed.

Lemma warnings_cons (e : event) (l : list event) (o : outcome) :
  warnings (e :: l, o)
  = match e with Warn w => w :: warnings (l, o) | _ => warnings (l, o) end.
Proof. now destruct e. Qed.

Section FullScrollRounds.

Variables (field : string) (subfield : option string) (include_id : bool).

#[local] Abbreviation loop' := (scroll_loop field subfield include_id).
#[local] Abbreviation page' := (scroll_hits field subfield include_id).
#[local] Abbreviation tuples' := (page_tuples field subfield include_id).

(** The counter [error_prints] counts the warnings and stops them at ten. *)
Lemma scroll_hits_cap (error_prints : nat) (hs : list hit) :
  error_prints <= 10 ->
  error_prints + length (warnings ((page' error_prints hs).1, Stop)) <= 10
  /\ forall error_prints',
       (page' error_prints hs).2 = inr error_prints' ->
       error_prints' = error_prints + length (warnings ((page' error_prints hs).1, Stop)).
Proof.
  revert error_prints. induction hs as [|h hs IH]; intros error_prints Hle.
  - cbn. split; [lia |]. intros ? [= <-]. lia.
  - cbn [scroll_hits].
    destruct (make_tuple field subfield include_id h) as [e|t].
    + destruct (caught e).
      * destruct (error_prints <? 10) eqn:Hlt.
        -- apply Nat.ltb_lt in Hlt.
           destruct (IH (error_prints + 1)) as [Hc He]; [lia |].
           cbn [fst snd]. rewrite warnings_cons. cbn [length].
           split; [lia |]. intros ep' Hr. rewrite (He _ Hr). lia.
        -- now apply IH.
      * cbn. split; [lia | discriminate].
    + destruct (IH error_prints Hle) as [Hc He].
      cbn [fst snd]. rewrite warnings_cons. split; [exact Hc | exact He].
Qed.

Lemma scroll_loop_cap (fuel : nat) (resp : response) (error_prints : nat) :
  error_prints <= 10 ->
  error_prints + length (warnings (loop' fuel resp error_prints)) <= 10.
Proof.
  revert error_prints. induction fuel as [|fuel IH]; intros error_prints Hle.
  - cbn. lia.
  - cbn [scroll_loop].
    destruct (scroll_hits_cap error_prints (hits resp) Hle) as [Hc He].
    destruct (page' error_prints (hits resp)) as [evs [e|error_prints']];
      [exact Hc |].
    cbn [fst snd] in Hc, He. specialize (He _ eq_refl).
    destruct (bool_decide (_scroll_id resp = None) || bool_decide (hits resp = []));
      [exact Hc |].
    rewrite warnings_app, length_app.
    specialize (IH error_prints'). lia.
Qed.

(** One round over a page: the tuples come from hits of the page. *)
Lemma scroll_hits_from_page (error_prints : nat) (hs : list hit) (o : outcome) :
  Forall (fun t => exists h, h ∈ hs /\ make_tuple field subfield include_id h = inr t)
         (yields ((page' error_prints hs).1, o)).
Proof.
  revert error_prints. induction hs as [|h hs IH]; intros error_prints.
  - constructor.
  - assert (Hrest : forall ep,
               Forall (fun t => exists h', h' ∈ h :: hs
                                  /\ make_tuple field subfield include_id h' = inr t)
                      (yields ((page' ep hs).1, o))).
    { intros ep. eapply Forall_impl; [apply IH |].
      intros t (h' & Hin & Ht). exists h'. split; [now apply list_elem_of_further | exact Ht]. }
    cbn [scroll_hits].
    destruct (make_tuple field subfield include_id h) as [e|t] eqn:Ht.
    + destruct (caught e); [| constructor].
      destruct (error_prints <? 10); [| apply Hrest].
      cbn [fst snd]. rewrite yields_cons. apply Hrest.
    + cbn [fst snd]. rewrite yields_cons. constructor; [| apply Hrest].
      exists h. split; [apply list_elem_of_here | exact Ht].
Qed.

Lemma scroll_loop_from_page (fuel : nat) (resp : response) (error_prints : nat) :
  Forall (fun t => exists h, h ∈ hits resp
                     /\ make_tuple field subfield include_id h = inr t)
         (yields (loop' fuel resp error_prints)).
Proof.
  revert error_prints. induction fuel as [|fuel IH]; intros error_prints.
  - constructor.
  - cbn [scroll_loop].
    pose proof (scroll_hits_from_page error_prints (hits resp) Stop) as Hpage.
    destruct (page' error_prints (hits resp)) as [evs [e|error_prints']];
      [exact Hpage |].
    destruct (bool_decide (_scroll_id resp = None) || bool_decide (hits resp = []));
      [exact Hpage |].
    rewrite yields_app. apply Forall_app. split; [exact Hpage | apply IH].
Qed.

Lemma page_tuples_cons (h : hit) (hs : list hit) :
  tuples' (h :: hs)
  = match make_tuple field subfield include_id h with
    | inr t => t :: tuples' hs
    | inl _ => tuples' hs
    end.
Proof.
  unfold page_tuples. simpl.
  now destruct (make_tuple field subfield include_id h).
Qed.

(** A page without uncaught exception: its tuples, and the loop goes on. *)
Lemma scroll_hits_recoverable (error_prints : nat) (hs : list hit) (o : outcome) :
  Forall (fun h => recoverable field subfield include_id h = true) hs ->
  yields ((page' error_prints hs).1, o) = tuples' hs
  /\ exists error_prints', (page' error_prints hs).2 = inr error_prints'.
Proof.
  intros Hok. revert error_prints.
  induction Hok as [|h hs Hh _ IH]; intros error_prints.
  - split; [reflexivity | now exists error_prints].
  - cbn [scroll_hits]. rewrite page_tuples_cons. unfold recoverable in Hh.
    destruct (make_tuple field subfield include_id h) as [e|t].
    + rewrite Hh. destruct (error_prints <? 10).
      * cbn [fst snd]. rewrite yields_cons. apply IH.
      * apply IH.
    + cbn [fst snd]. rewrite yields_cons.
      destruct (IH error_prints) as [Hy He]. split; [| exact He].
      f_equal. exact Hy.
Qed.

(** A page up to its first uncaught exception. *)
Lemma scroll_hits_uncaught (error_prints : nat) (pre post : list hit) (h : hit)
    (e : exn) (o : outcome) :
  Forall (fun h => recoverable field subfield include_id h = true) pre ->
  make_tuple field subfield include_id h = inl e ->
  caught e = false ->
  yields ((page' error_prints (pre ++ h :: post)).1, o) = tuples' pre
  /\ (page' error_prints (pre ++ h :: post)).2 = inl e.
Proof.
  intros Hok Hh He. revert error_prints.
  induction Hok as [|h' pre Hh' _ IH]; intros error_prints.
  - cbn [app scroll_hits]. rewrite Hh, He. split; reflexivity.
  - cbn [app scroll_hits]. rewrite page_tuples_cons. unfold recoverable in Hh'.
    destruct (make_tuple field subfield include_id h') as [e'|t].
    + rewrite Hh'. destruct (error_prints <? 10).
      * cbn [fst snd]. rewrite yields_cons. apply IH.
      * apply IH.
    + cbn [fst snd]. rewrite yields_cons.
      destruct (IH error_prints) as [Hy Hr]. split; [| exact Hr].
      f_equal. exact Hy.
Qed.

End FullScrollRounds.

(** X6: whatever the store returns and however long the reader runs, it
    logs at most ten warnings: [error_prints] is kept across the rounds of
    the loop, and the hits that fail after the tenth warning are skipped
    in silence. *)
Theorem full_scroll_warnings_capped (field : string) (subfield : option string)
    (include_id : bool) (fuel : nat) (es : cluster) (index : string)
    (doc_type : option string) :
  length (warnings (iter_elastic_query field subfield include_id fuel es index doc_type))
  <= 10.
Proof.
  unfold iter_elastic_query. destruct (pages es) as [|resp rest]; [cbn; lia |].
  rewrite warnings_emit_send.
  destruct (_scroll_id resp); [| cbn; lia].
  pose proof (scroll_loop_cap field subfield include_id fuel resp 0). lia.
Qed.

(** X7: every tuple that the full-scroll reader yields is made from a hit
    of the first response of the store; no hit of a later page is ever
    yielded. *)
Theorem full_scroll_yields_first_page_only (field : string)
    (subfield : option string) (include_id : bool) (fuel : nat) (es : cluster)
    (index : string) (doc_type : option string) :
  Forall (fun t => exists resp rest h,
                     pages es = resp :: rest /\ h ∈ hits resp
                     /\ make_tuple field subfield include_id h = inr t)
         (yields (iter_elastic_query field subfield include_id fuel es index doc_type)).
Proof.
  unfold iter_elastic_query. destruct (pages es) as [|resp rest]; [constructor |].
  rewrite yields_emit_send. destruct (_scroll_id resp); [| constructor].
  eapply Forall_impl;
    [apply (scroll_loop_from_page field subfield include_id fuel resp 0) |].
  intros t (h & Hin & Ht). now exists resp, rest, h.
Qed.

(** X8: the full-scroll reader comes to its end exactly when the first
    response has no cursor or no hits. *)
Theorem full_scroll_returns_iff (field : string) (subfield : option string)
    (include_id : bool) (es : cluster) (resp : response) (rest : list response)
    (index : string) (doc_type : option string) :
  pages es = resp :: rest ->
  (exists fuel,
     (iter_elastic_query field subfield include_id fuel es index doc_type).2 = Stop)
  <-> _scroll_id resp = None \/ hits resp = [].
Proof.
  apply iter_elastic_query_stops_iff.
Qed.

Lemma full_scroll_returns_iff_witness :
  (exists fuel,
     (iter_elastic_query "text" None false fuel MoreSamples.empty_index
        "docs" None).2 = Stop)
  <-> Some "c0" = None \/ @nil hit = [].
Proof.
  apply (full_scroll_returns_iff "text" None false MoreSamples.empty_index
           (Response (Some "c0") []) [] "docs" None).
  reflexivity.
Defined.

(** X9: when the first response has a cursor and at least one hit, and no
    hit raises an exception that the reader does not catch, the reader
    after n rounds has sent the one search, has yielded n times the tuples
    of that page, and is still running. *)
Theorem full_scroll_repeats_page (field : string) (subfield : option string)
    (include_id : bool) (es : cluster) (resp : response) (rest : list response)
    (cursor : string) (h : hit) (hs : list hit) (index : string)
    (doc_type : option string) (fuel : nat) :
  pages es = resp :: rest ->
  _scroll_id resp = Some cursor ->
  hits resp = h :: hs ->
  forallb (recoverable field subfield include_id) (h :: hs) = true ->
  let t := iter_elastic_query field subfield include_id fuel es index doc_type in
  t.2 = Running
  /\ yields t = concat (replicate fuel (page_tuples field subfield include_id (h :: hs)))
  /\ requests t = [Search index doc_type].
Proof.
  intros Hp Hc Hh Hok t. subst t. apply forallb_Forall in Hok.
  unfold iter_elastic_query. rewrite Hp, Hc.
  rewrite yields_emit_send, requests_emit_send, scroll_loop_requests.
  cbn [emit snd]. split; [| split; [| reflexivity]].
  - generalize 0 at 1. induction fuel as [|fuel IH]; intros ep; [reflexivity |].
    cbn [scroll_loop]. rewrite Hh.
    destruct (scroll_hits_recoverable field subfield include_id ep (h :: hs) Stop Hok)
      as [_ [ep' Hep]].
    destruct (scroll_hits field subfield include_id ep (h :: hs)) as [evs r].
    cbn [snd] in Hep. subst r. rewrite Hc.
    cbn [bool_decide decide_rel orb]. rewrite !bool_decide_eq_false_2 by discriminate.
    cbn [orb snd]. apply IH.
  - generalize 0 at 1. induction fuel as [|fuel IH]; intros ep; [reflexivity |].
    cbn [scroll_loop replicate concat]. rewrite Hh.
    destruct (scroll_hits_recoverable field subfield include_id ep (h :: hs) Stop Hok)
      as [Hy [ep' Hep]].
    destruct (scroll_hits field subfield include_id ep (h :: hs)) as [evs r].
    cbn [fst snd] in Hy, Hep. subst r. rewrite Hc.
    rewrite !bool_decide_eq_false_2 by discriminate. cbn [orb].
    rewrite yields_app, Hy. f_equal. apply IH.
Qed.

Lemma full_scroll_repeats_page_witness :
  let t := iter_elastic_query "text" (Some "body") true 2
             (Cluster [Response (Some "c1") [MoreSamples.nested_hit]] 1
                      (fun _ _ _ => []))
             "docs" None in
  t.2 = Running
  /\ yields t
     = [ DocWithId "doc-2" "text/body" (JString "nested");
         DocWithId "doc-2" "text/body" (JString "nested") ]
  /\ requests t = [Search "docs" None].
Proof.
  apply (full_scroll_repeats_page "text" (Some "body") true
           (Cluster [Response (Some "c1") [MoreSamples.nested_hit]] 1
                    (fun _ _ _ => []))
           (Response (Some "c1") [MoreSamples.nested_hit]) [] "c1"
           MoreSamples.nested_hit [] "docs" None 2); reflexivity.
Defined.

(** X10: a hit whose value under [field] is not a dict, when a subfield is
    asked for, raises [TypeError], which the reader does not catch: the
    iteration ends with that exception in its first round, after the
    tuples of the hits before it; the hits after it are not looked at. *)
Theorem full_scroll_type_error_aborts (field : string) (subfield : option string)
    (include_id : bool) (es : cluster) (resp : response) (rest : list response)
    (cursor : string) (pre post : list hit) (h : hit) (index : string)
    (doc_type : option string) (fuel : nat) :
  pages es = resp :: rest ->
  _scroll_id resp = Some cursor ->
  hits resp = pre ++ h :: post ->
  forallb (recoverable field subfield include_id) pre = true ->
  make_tuple field subfield include_id h = inl TypeError ->
  let t := iter_elastic_query field subfield include_id (S fuel) es index doc_type in
  t.2 = Raise TypeError
  /\ yields t = page_tuples field subfield include_id pre.
Proof.
  intros Hp Hc Hh Hok Herr t. subst t. apply forallb_Forall in Hok.
  unfold iter_elastic_query. rewrite Hp, Hc, yields_emit_send.
  cbn [emit snd scroll_loop]. rewrite Hh.
  destruct (scroll_hits_uncaught field subfield include_id 0 pre post h TypeError
              Stop Hok Herr eq_refl) as [Hy Hr].
  destruct (scroll_hits field subfield include_id 0 (pre ++ h :: post)) as [evs r].
  cbn [fst snd] in Hy, Hr. subst r. split; [reflexivity | exact Hy].
Qed.

Lemma full_scroll_type_error_aborts_witness :
  let t := iter_elastic_query "text" (Some "body") false 1
             MoreSamples.nested_then_flat "docs" None in
  t.2 = Raise TypeError
  /\ yields t = [Doc "text/body" (JString "nested")].
Proof.
  apply (full_scroll_type_error_aborts "text" (Some "body") false
           MoreSamples.nested_then_flat
           (Response (Some "c1")
              [MoreSamples.nested_hit; Samples.one_hit; MoreSamples.nested_hit])
           [] "c1" [MoreSamples.nested_hit] [MoreSamples.nested_hit]
           Samples.one_hit "docs" None 0); reflexivity.
Defined.

(** ** The random-sample reader, batch by batch *)

Section RandomSampleBatches.

Variables (field : string) (subfield : option string) (include_id : bool).
Variables (randint : nat -> Z) (es : cluster) (index : string).
Variables (batch_size n_samples : Z).

#[local] Abbreviation batch' := (sample_hits field subfield include_id).
#[local] Abbreviation sampling' :=
  (sample_loop field subfield include_id randint es index batch_size n_samples).
#[local] Abbreviation tuples'' := (page_tuples field subfield include_id).

Lemma sample_hits_requests (sampled : Z) (error_prints : nat) (hs : list hit)
    (o : outcome) :
  requests ((batch' sampled error_prints hs).1, o) = [].
Proof.
  revert sampled error_prints. induction hs as [|h hs IH]; intros sampled error_prints.
  - reflexivity.
  - cbn [sample_hits]. destruct (make_tuple field subfield include_id h) as [e|t].
    + destruct (caught e); [| reflexivity].
      destruct (error_prints <? 10); [apply (IH sampled (error_prints + 1)) | apply IH].
    + apply (IH (sampled + 1)%Z).
Qed.

Lemma sample_hits_cap (sampled : Z) (error_prints : nat) (hs : list hit) :
  error_prints <= 10 ->
  error_prints + length (warnings ((batch' sampled error_prints hs).1, Stop)) <= 10
  /\ forall sampled' error_prints',
       (batch' sampled error_prints hs).2 = inr (sampled', error_prints') ->
       error_prints'
       = error_prints + length (warnings ((batch' sampled error_prints hs).1, Stop)).
Proof.
  revert sampled error_prints.
  induction hs as [|h hs IH]; intros sampled error_prints Hle.
  - cbn. split; [lia |]. intros ? ? [= _ <-]. lia.
  - cbn [sample_hits].
    destruct (make_tuple field subfield include_id h) as [e|t].
    + destruct (caught e).
      * destruct (error_prints <? 10) eqn:Hlt.
        -- apply Nat.ltb_lt in Hlt.
           destruct (IH sampled (error_prints + 1)) as [Hc He]; [lia |].
           cbn [fst snd]. rewrite warnings_cons. cbn [length].
           split; [lia |]. intros s' ep' Hr. rewrite (He _ _ Hr). lia.
        -- now apply IH.
      * cbn. split; [lia | discriminate].
    + destruct (IH (sampled + 1)%Z error_prints Hle) as [Hc He].
      cbn [fst snd]. rewrite warnings_cons. split; [exact Hc | exact He].
Qed.

Lemma sample_loop_cap (fuel k : nat) (sampled : Z) (error_prints : nat) :
  error_prints <= 10 ->
  error_prints + length (warnings (sampling' fuel k sampled error_prints)) <= 10.
Proof.
  revert k sampled error_prints.
  induction fuel as [|fuel IH]; intros k sampled error_prints Hle.
  - cbn. lia.
  - cbn [sample_loop]. destruct (sampled <? n_samples)%Z; [| cbn; lia].
    destruct (random_in_range randint es batch_size k) as [e|[r siz]];
      [cbn; lia |].
    rewrite warnings_emit_send.
    destruct (sample_hits_cap sampled error_prints (window es k r siz) Hle)
      as [Hc He].
    destruct (batch' sampled error_prints (window es k r siz))
      as [evs [e|[sampled' error_prints']]]; [exact Hc |].
    cbn [fst snd] in Hc, He. specialize (He _ _ eq_refl).
    rewrite warnings_app, length_app.
    specialize (IH (S k) sampled' error_prints'). lia.
Qed.

(** The requests of the loop are its windowed searches, each for the
    document type ["article"]. *)
Lemma sample_loop_requests (fuel k : nat) (sampled : Z) (error_prints : nat) :
  requests (sampling' fuel k sampled error_prints)
  = (fun win => SearchWindow index "article" win.1 win.2)
      <$> searches (sampling' fuel k sampled error_prints).
Proof.
  revert k sampled error_prints.
  induction fuel as [|fuel IH]; intros k sampled error_prints; [reflexivity |].
  cbn [sample_loop]. destruct (sampled <? n_samples)%Z; [| reflexivity].
  destruct (random_in_range randint es batch_size k) as [e|[r siz]];
    [reflexivity |].
  rewrite requests_emit_send, searches_emit_search, fmap_cons. f_equal.
  pose proof (sample_hits_requests sampled error_prints (window es k r siz) Stop) as Hq.
  destruct (sample_hits_count field subfield include_id sampled error_prints
              (window es k r siz)) as (Hs & _ & _).
  destruct (batch' sampled error_prints (window es k r siz))
    as [evs [e|[sampled' error_prints']]]; cbn [fst snd] in Hq, Hs.
  - unfold requests, searches in *. cbn [fst] in *. now rewrite Hq, Hs.
  - rewrite requests_app, searches_app, Hq, Hs. cbn [app]. apply IH.
Qed.

(** The windows asked for: never a negative start, never more than
    [batch_size] hits. *)
Lemma sample_loop_windows (fuel k : nat) (sampled : Z) (error_prints : nat) :
  Forall (fun win => (0 <= win.1)%Z /\ (win.2 <= batch_size)%Z)
         (searches (sampling' fuel k sampled error_prints)).
Proof.
  revert k sampled error_prints.
  induction fuel as [|fuel IH]; intros k sampled error_prints; [constructor |].
  cbn [sample_loop]. destruct (sampled <? n_samples)%Z; [| constructor].
  destruct (random_in_range randint es batch_size k) as [e|[r siz]] eqn:Hr;
    [constructor |].
  rewrite searches_emit_search. constructor.
  - cbn [fst snd]. unfold random_in_range in Hr.
    destruct (count es <? 0)%Z; [discriminate |].
    destruct (randint k <? 0)%Z eqn:Hneg; injection Hr as <- <-.
    + apply Z.ltb_lt in Hneg. lia.
    + apply Z.ltb_ge in Hneg. lia.
  - destruct (sample_hits_count field subfield include_id sampled error_prints
                (window es k r siz)) as (Hs & _ & _).
    destruct (batch' sampled error_prints (window es k r siz))
      as [evs [e|[sampled' error_prints']]]; cbn [fst snd] in Hs.
    + unfold searches in *. cbn [fst] in *. rewrite Hs. constructor.
    + rewrite searches_app, Hs. cbn [app]. apply IH.
Qed.

(** With draws that are not negative, the [k]-th window starts at the
    [k]-th draw and has the full batch size. *)
Lemma sample_loop_draws (fuel k : nat) (sampled : Z) (error_prints : nat) :
  (forall j, (0 <= randint j)%Z) ->
  searches (sampling' fuel k sampled error_prints)
  = (fun j => (randint j, batch_size))
      <$> seq k (length (searches (sampling' fuel k sampled error_prints))).
Proof.
  intros Hdraw. revert k sampled error_prints.
  induction fuel as [|fuel IH]; intros k sampled error_prints; [reflexivity |].
  cbn [sample_loop]. destruct (sampled <? n_samples)%Z; [| reflexivity].
  unfold random_in_range. destruct (count es <? 0)%Z; [reflexivity |].
  pose proof (Hdraw k) as Hk. apply Z.ltb_ge in Hk. rewrite Hk.
  rewrite searches_emit_search. cbn [length seq]. rewrite fmap_cons. f_equal.
  destruct (sample_hits_count field subfield include_id sampled error_prints
              (window es k (randint k) batch_size)) as (Hs & _ & _).
  destruct (batch' sampled error_prints (window es k (randint k) batch_size))
    as [evs [e|[sampled' error_prints']]]; cbn [fst snd] in Hs.
  - unfold searches in *. cbn [fst] in *. now rewrite Hs.
  - rewrite searches_app, Hs. cbn [app]. apply IH.
Qed.

End RandomSampleBatches.

(** X11: the random-sample reader logs at most ten warnings in one
    iteration, over all its batches. *)
Theorem random_sample_warnings_capped (field : string) (subfield : option string)
    (include_id : bool) (randint : nat -> Z) (es : cluster) (index : string)
    (batch_size n_samples : Z) (fuel : nat) (doc_type : option string) :
  length (warnings (random_elastic_query field subfield include_id randint es
                      index batch_size n_samples fuel doc_type))
  <= 10.
Proof.
  unfold random_elastic_query. rewrite warnings_emit_send.
  pose proof (sample_loop_cap field subfield include_id randint es index
                batch_size n_samples fuel 0 0%Z 0). lia.
Qed.

(** X12: no windowed search of the random-sample reader starts at a
    negative offset or asks for more than [batch_size] hits. *)
Theorem random_sample_windows_bounded (field : string) (subfield : option string)
    (include_id : bool) (randint : nat -> Z) (es : cluster) (index : string)
    (batch_size n_samples : Z) (fuel : nat) (doc_type : option string) :
  Forall (fun win => (0 <= win.1)%Z /\ (win.2 <= batch_size)%Z)
         (searches (random_elastic_query field subfield include_id randint es
                      index batch_size n_samples fuel doc_type)).
Proof.
  unfold random_elastic_query.
  change (searches (emit (Send (Count index doc_type)) ?tr)) with (searches tr).
  apply sample_loop_windows.
Qed.

(** X13: [random.randint(0, n)] draws no negative number, and then the
    clamping branch of [random_in_range] is never taken: the k-th search
    asks for the window that starts at the k-th draw and has the full
    [batch_size]. *)
Theorem random_sample_windows_follow_draws (field : string)
    (subfield : option string) (include_id : bool) (randint : nat -> Z)
    (es : cluster) (index : string) (batch_size n_samples : Z) (fuel : nat)
    (doc_type : option string) :
  (forall k, (0 <= randint k)%Z) ->
  let t := random_elastic_query field subfield include_id randint es index
             batch_size n_samples fuel doc_type in
  searches t = (fun k => (randint k, batch_size)) <$> seq 0 (length (searches t)).
Proof.
  intros Hdraw t. subst t. unfold random_elastic_query.
  change (searches (emit (Send (Count index doc_type)) ?tr)) with (searches tr).
  now apply sample_loop_draws.
Qed.

Lemma random_sample_windows_follow_draws_witness :
  let t := random_elastic_query "text" None false (fun k => Z.of_nat k)
             Samples.five "docs" 2 3 10 None in
  searches t = (fun k => (Z.of_nat k, 2%Z)) <$> seq 0 (length (searches t)).
Proof.
  apply (random_sample_windows_follow_draws "text" None false
           (fun k => Z.of_nat k) Samples.five "docs" 2 3 10 None).
  intros k. lia.
Defined.

(** X14: the reader asks for the document count with the caller's
    [doc_type], and then sends only windowed searches, every one of them
    for the document type ["article"], whatever [doc_type] is. *)
Theorem random_sample_requests (field : string) (subfield : option string)
    (include_id : bool) (randint : nat -> Z) (es : cluster) (index : string)
    (batch_size n_samples : Z) (fuel : nat) (doc_type : option string) :
  let t := random_elastic_query field subfield include_id randint es index
             batch_size n_samples fuel doc_type in
  requests t
  = Count index doc_type
      :: ((fun win => SearchWindow index "article" win.1 win.2) <$> searches t).
Proof.
  intros t. subst t. unfold random_elastic_query.
  rewrite requests_emit_send.
  change (searches (emit (Send (Count index doc_type)) ?tr)) with (searches tr).
  f_equal. apply sample_loop_requests.
Qed.

Section RandomSampleEnd.

Variables (field : string) (subfield : option string) (include_id : bool).
Variables (randint : nat -> Z) (es : cluster) (index : string).
Variables (batch_size n_samples : Z).

#[local] Abbreviation batch'' := (sample_hits field subfield include_id).
#[local] Abbreviation sampling'' :=
  (sample_loop field subfield include_id randint es index batch_size n_samples).

(** A batch in which no hit raises an uncaught exception counts its
    tuples. *)
Lemma sample_hits_recoverable (sampled : Z) (error_prints : nat) (hs : list hit) :
  Forall (fun h => recoverable field subfield include_id h = true) hs ->
  yields ((batch'' sampled error_prints hs).1, Stop)
  = page_tuples field subfield include_id hs
  /\ exists error_prints',
       (batch'' sampled error_prints hs).2
       = inr ((sampled + Z.of_nat (length (page_tuples field subfield include_id hs)))%Z,
              error_prints').
Proof.
  intros Hok. revert sampled error_prints.
  induction Hok as [|h hs Hh _ IH]; intros sampled error_prints.
  - split; [reflexivity |]. exists error_prints. cbn. do 2 f_equal. lia.
  - cbn [sample_hits]. rewrite page_tuples_cons. unfold recoverable in Hh.
    destruct (make_tuple field subfield include_id h) as [e|t].
    + rewrite Hh. destruct (error_prints <? 10).
      * cbn [fst snd]. rewrite yields_cons. apply IH.
      * apply IH.
    + cbn [fst snd]. rewrite yields_cons.
      destruct (IH (sampled + 1)%Z error_prints) as [Hy [ep' He]].
      split; [now f_equal |]. exists ep'. rewrite He. cbn [length]. do 2 f_equal. lia.
Qed.

Lemma page_tuples_extractable (hs : list hit) :
  existsb (extractable field subfield include_id) hs = true ->
  1 <= length (page_tuples field subfield include_id hs).
Proof.
  induction hs as [|h hs IH]; [discriminate |].
  cbn [existsb]. rewrite page_tuples_cons. unfold extractable at 1.
  destruct (make_tuple field subfield include_id h); cbn [orb length]; [exact IH | lia].
Qed.

Hypothesis Hcount : (count es <? 0)%Z = false.

(** When every batch is without uncaught exception and has at least one
    hit that gives a tuple, the loop returns within [n_samples] rounds. *)
Lemma sample_loop_returns (fuel k : nat) (sampled : Z) (error_prints : nat) :
  (forall j r siz,
     random_in_range randint es batch_size j = inr (r, siz) ->
     forallb (recoverable field subfield include_id) (window es j r siz) = true
     /\ existsb (extractable field subfield include_id) (window es j r siz) = true) ->
  (Z.max 0 (n_samples - sampled) < Z.of_nat fuel)%Z ->
  (sampling'' fuel k sampled error_prints).2 = Stop.
Proof.
  intros Hstore. revert k sampled error_prints.
  induction fuel as [|fuel IH]; intros k sampled error_prints Hfuel; [lia |].
  cbn [sample_loop]. destruct (sampled <? n_samples)%Z eqn:Hlt; [| reflexivity].
  apply Z.ltb_lt in Hlt.
  destruct (random_in_range randint es batch_size k) as [e|[r siz]] eqn:Hr.
  - unfold random_in_range in Hr. rewrite Hcount in Hr.
    destruct (randint k <? 0)%Z; discriminate.
  - destruct (Hstore k r siz Hr) as [Hrec Hext].
    apply forallb_Forall in Hrec. apply page_tuples_extractable in Hext.
    destruct (sample_hits_recoverable sampled error_prints (window es k r siz) Hrec)
      as [_ [ep' He]].
    destruct (batch'' sampled error_prints (window es k r siz)) as [evs res].
    cbn [snd] in He. subst res. cbn [emit snd]. apply IH. lia.
Qed.

(** When no batch gives a tuple, the loop never returns. *)
Lemma sample_loop_barren (fuel k : nat) (sampled : Z) (error_prints : nat) :
  (forall j r siz,
     forallb (fun h => recoverable field subfield include_id h
                       && negb (extractable field subfield include_id h))
             (window es j r siz) = true) ->
  (sampled < n_samples)%Z ->
  let t := sampling'' fuel k sampled error_prints in
  t.2 = Running /\ yields t = [] /\ length (searches t) = fuel.
Proof.
  intros Hstore Hlt. apply Z.ltb_lt in Hlt. revert k error_prints.
  induction fuel as [|fuel IH]; intros k error_prints; [now cbn |].
  cbn [sample_loop]. rewrite Hlt.
  destruct (random_in_range randint es batch_size k) as [e|[r siz]] eqn:Hr.
  { unfold random_in_range in Hr. rewrite Hcount in Hr.
    destruct (randint k <? 0)%Z; discriminate. }
  specialize (Hstore k r siz). apply forallb_Forall in Hstore.
  assert (Hrec : Forall (fun h => recoverable field subfield include_id h = true)
                        (window es k r siz)).
  { eapply Forall_impl; [exact Hstore |]. cbn. intros h Hh.
    now apply andb_true_iff in Hh. }
  assert (Hnone : page_tuples field subfield include_id (window es k r siz) = []).
  { clear -Hstore. induction Hstore as [|h hs Hh _ IH]; [reflexivity |].
    rewrite page_tuples_cons. apply andb_true_iff in Hh. destruct Hh as [_ Hh].
    unfold extractable in Hh.
    now destruct (make_tuple field subfield include_id h). }
  destruct (sample_hits_recoverable sampled error_prints (window es k r siz) Hrec)
    as [Hy [ep' He]].
  destruct (sample_hits_count field subfield include_id sampled error_prints
              (window es k r siz)) as (Hs & _ & _).
  destruct (batch'' sampled error_prints (window es k r siz)) as [evs res].
  cbn [fst snd] in Hy, He, Hs. subst res. rewrite Hnone in *. cbn [length] in *.
  replace (sampled + Z.of_nat 0)%Z with sampled by lia.
  cbv zeta. destruct (IH (S k) ep') as (Ho & Hyl & Hq).
  rewrite yields_emit_send, searches_emit_search, yields_app, searches_app.
  cbn [emit snd]. rewrite Hy, Hs, Hyl. cbn [app length]. now rewrite Hq.
Qed.

End RandomSampleEnd.

(** X15: on a store whose document count is not negative and whose every
    answer to a search of the reader has no hit that raises an uncaught
    exception and at least one hit that gives a tuple, the random-sample
    reader comes to its end: it needs at most [n_samples] batches. *)
Theorem random_sample_returns (field : string) (subfield : option string)
    (include_id : bool) (randint : nat -> Z) (es : cluster) (index : string)
    (batch_size n_samples : Z) (fuel : nat) (doc_type : option string) :
  (count es <? 0)%Z = false ->
  (forall k r siz,
     random_in_range randint es batch_size k = inr (r, siz) ->
     forallb (recoverable field subfield include_id) (window es k r siz) = true
     /\ existsb (extractable field subfield include_id) (window es k r siz) = true) ->
  (Z.max 0 n_samples < Z.of_nat fuel)%Z ->
  (random_elastic_query field subfield include_id randint es index
     batch_size n_samples fuel doc_type).2 = Stop.
Proof.
  intros Hcount Hstore Hfuel. unfold random_elastic_query. cbn [emit snd].
  apply sample_loop_returns; [exact Hcount | exact Hstore | lia].
Qed.

Lemma random_sample_returns_witness :
  (random_elastic_query "text" None false (fun _ => 0%Z) Samples.five "docs"
     2 3 4 None).2 = Stop.
Proof.
  apply (random_sample_returns "text" None false (fun _ => 0%Z) Samples.five
           "docs" 2 3 4 None); [reflexivity | | lia].
  intros k r siz [= <- <-]. split; reflexivity.
Defined.

(** X16: on a store whose answers never give a tuple (an empty index, or
    documents that all lack the requested field), the random-sample reader
    asked for at least one sample does not come to its end: after n rounds
    it has made n searches, has yielded nothing, and is still running. *)
Theorem random_sample_barren_never_returns (field : string)
    (subfield : option string) (include_id : bool) (randint : nat -> Z)
    (es : cluster) (index : string) (batch_size n_samples : Z) (fuel : nat)
    (doc_type : option string) :
  (count es <? 0)%Z = false ->
  (forall k r siz,
     forallb (fun h => recoverable field subfield include_id h
                       && negb (extractable field subfield include_id h))
             (window es k r siz) = true) ->
  (0 < n_samples)%Z ->
  let t := random_elastic_query field subfield include_id randint es index
             batch_size n_samples fuel doc_type in
  t.2 = Running /\ yields t = [] /\ length (searches t) = fuel.
Proof.
  intros Hcount Hstore Hn t. subst t. unfold random_elastic_query.
  rewrite yields_emit_send.
  change (searches (emit (Send (Count index doc_type)) ?tr)) with (searches tr).
  cbn [emit snd]. now apply sample_loop_barren.
Qed.

Lemma random_sample_barren_never_returns_witness :
  let t := random_elastic_query "text" None false (fun k => Z.of_nat k)
             MoreSamples.empty_index "docs" 2 3 7 None in
  t.2 = Running /\ yields t = [] /\ length (searches t) = 7.
Proof.
  apply (random_sample_barren_never_returns "text" None false
           (fun k => Z.of_nat k) MoreSamples.empty_index "docs" 2 3 7 None);
    [reflexivity | intros; reflexivity | lia].
Defined.

(** ** The source resolver, rule by rule *)

(** A source type given by name is obeyed whatever the source looks
    like: ["solr"], ["elastic"], ["large_json"] and ["folder"] return the
    reader of that name on the source, without reading anything; the
    folder reader gets [content_field] and the others the keyword
    arguments. *)
Lemma read_input_explicit_type
    (registered_json_stream : world -> string -> kwargs -> trace)
    (w : world) (source content_field : string) (kw : kwargs) :
  read_input registered_json_stream w source "solr" content_field kw
  = ([], Returns (read_solr source kw))
  /\ read_input registered_json_stream w source "elastic" content_field kw
     = ([], Returns (read_elastic source kw))
  /\ read_input registered_json_stream w source "large_json" content_field kw
     = ([], Returns (read_large_json source kw))
  /\ read_input registered_json_stream w source "folder" content_field kw
     = ([], Returns (read_document_folder source content_field)).
Proof. repeat split. Qed.

(** X17: with the source type ["auto"], a source that contains ["8983"]
    goes to the Solr reader, also when it contains ["9200"] or has a JSON
    extension. *)
Theorem read_input_auto_solr
    (registered_json_stream : world -> string -> kwargs -> trace) (w : world)
    (source content_field : string) (kw : kwargs) :
  str_in "8983" source = true ->
  read_input registered_json_stream w source "auto" content_field kw
  = ([], Returns (read_solr source kw)).
Proof. intros H. unfold read_input. now rewrite H. Qed.

Lemma read_input_auto_solr_witness :
  str_in "9200" "localhost:8983/solr/9200.json" = true
  /\ (splitext "localhost:8983/solr/9200.json").2 = ".json"
  /\ read_input ResolverSamples.lines_reader Samples.w "localhost:8983/solr/9200.json"
       "auto" "text" Samples.kw
     = ([], Returns (read_solr "localhost:8983/solr/9200.json" Samples.kw)).
Proof.
  split; [reflexivity |]. split; [reflexivity |].
  apply (read_input_auto_solr ResolverSamples.lines_reader Samples.w
           "localhost:8983/solr/9200.json" "text" Samples.kw).
  reflexivity.
Defined.

(** X18: with the source type ["auto"], a source without port number and
    without extension goes to the folder reader, which is given
    [content_field]; no file is opened to decide this. *)
Theorem read_input_auto_folder
    (registered_json_stream : world -> string -> kwargs -> trace) (w : world)
    (source content_field : string) (kw : kwargs) :
  str_in "8983" source = false ->
  str_in "9200" source = false ->
  (splitext source).2 = EmptyString ->
  read_input registered_json_stream w source "auto" content_field kw
  = ([], Returns (read_document_folder source content_field)).
Proof.
  intros H8983 H9200 Hext. unfold read_input.
  now rewrite H8983, H9200, Hext.
Qed.

Lemma read_input_auto_folder_witness :
  read_input ResolverSamples.lines_reader Samples.w "corpus/reviews.d/texts" "auto"
    "text" Samples.kw
  = ([], Returns (read_document_folder "corpus/reviews.d/texts" "text")).
Proof.
  apply (read_input_auto_folder ResolverSamples.lines_reader Samples.w
           "corpus/reviews.d/texts" "text" Samples.kw); reflexivity.
Defined.

(** X19: with the source type ["auto"], a source without port number whose
    extension is neither empty nor [.js] nor [.json] is refused with
    [ValueError]. *)
Theorem read_input_auto_unrecognized
    (registered_json_stream : world -> string -> kwargs -> trace)
    (w : world) (source content_field : string) (kw : kwargs) :
  str_in "8983" source = false ->
  str_in "9200" source = false ->
  bool_decide ((splitext source).2 ∈ json_extensions) = false ->
  String.eqb (splitext source).2 EmptyString = false ->
  read_input registered_json_stream w source "auto" content_field kw
  = ([], Raises ValueError).
Proof.
  intros H8983 H9200 Hjson Hext. unfold read_input.
  now rewrite H8983, H9200, Hjson, Hext.
Qed.

Lemma read_input_auto_unrecognized_witness :
  read_input ResolverSamples.lines_reader Samples.w "reviews.csv" "auto" "text" Samples.kw
  = ([], Raises ValueError).
Proof.
  apply (read_input_auto_unrecognized ResolverSamples.lines_reader Samples.w
           "reviews.csv" "text" Samples.kw); reflexivity.
Defined.

(** X20: a source type that is none of ["auto"], ["solr"], ["elastic"],
    ["json_stream"], ["large_json"] and ["folder"] is refused with
    [ValueError], whatever the source. *)
Theorem read_input_unknown_type
    (registered_json_stream : world -> string -> kwargs -> trace)
    (w : world) (source source_type content_field : string) (kw : kwargs) :
  bool_decide (source_type ∈ source_types) = false ->
  read_input registered_json_stream w source source_type content_field kw
  = ([], Raises ValueError).
Proof.
  intros Hnot. apply bool_decide_eq_false in Hnot. unfold read_input.
  assert (Hne : forall known, known ∈ source_types ->
                              String.eqb source_type known = false).
  { intros known Hin. apply String.eqb_neq. intros ->. contradiction. }
  rewrite !Hne by (unfold source_types; set_solver). reflexivity.
Qed.

Lemma read_input_unknown_type_witness :
  read_input ResolverSamples.lines_reader Samples.w "reviews.json" "jsonl" "text" Samples.kw
  = ([], Raises ValueError).
Proof.
  apply (read_input_unknown_type ResolverSamples.lines_reader Samples.w "reviews.json"
           "jsonl" "text" Samples.kw).
  vm_compute. reflexivity.
Defined.

(** ** The probe of the source resolver *)

(** What [next] returns is the first element of the trace, when it has
    one. *)
Lemma next_first_element (tr : trace) :
  match (next tr).2 with
  | Got t => first_element tr = Some t
  | _ => first_element tr = None
  end.
Proof.
  destruct tr as [evs o]. unfold next, first_element, yields. cbn [fst snd].
  induction evs as [|e evs IH]; [now destruct o |].
  destruct e; cbn; [reflexivity | exact IH ..].
Qed.

(** [next] runs the generator up to its first [yield]: its events open the
    trace, hold no record, and the first record follows them. *)
Lemma next_events_before_first (tr : trace) :
  (next tr).1 `prefix_of` tr.1
  /\ yields ((next tr).1, Stop) = []
  /\ forall t, first_element tr = Some t ->
               exists rest, tr.1 = (next tr).1 ++ Yield t :: rest.
Proof.
  destruct tr as [evs o]. unfold next, first_element, yields. cbn [fst snd].
  induction evs as [|e evs IH].
  - repeat split; [apply prefix_nil | discriminate].
  - destruct IH as (Hpre & Hnone & Hfirst).
    destruct e; cbn [next_events fst snd].
    + repeat split; [apply prefix_nil |]. cbn. intros t' [= <-]. now exists evs.
    + repeat split; [now apply prefix_cons | exact Hnone |].
      cbn. intros t' Ht. destruct (Hfirst t' Ht) as [rest Hrest].
      exists rest. cbn. now f_equal.
    + repeat split; [now apply prefix_cons | exact Hnone |].
      cbn. intros t' Ht. destruct (Hfirst t' Ht) as [rest Hrest].
      exists rest. cbn. now f_equal.
Qed.

Section Probe.

Variable registered_json_stream : world -> string -> kwargs -> trace.

(** The conditions under which [read_input] probes. *)
Lemma read_input_probed (w : world) (source source_type content_field : string)
    (kw : kwargs) :
  probed source source_type = true ->
  read_input registered_json_stream w source source_type content_field kw
  = match probe registered_json_stream w source kw with
    | (evs, Got _) => (evs, Returns (read_json_stream source kw))
    | (evs, Raised ValueError) => (evs, Returns (read_large_json source kw))
    | (evs, Raised e) => (evs, Raises e)
    | (evs, Pending) => (evs, Hangs)
    end.
Proof.
  unfold probed, read_input. intros H.
  destruct (String.eqb_spec source_type "json_stream") as [->|_]; [reflexivity |].
  cbn [orb] in H. destruct (String.eqb_spec source_type "auto") as [->|_];
    [| discriminate].
  cbn [andb] in H.
  destruct (str_in "8983" source); [discriminate |].
  destruct (str_in "9200" source); [discriminate |].
  cbn [negb andb] in H. rewrite H. reflexivity.
Qed.

(** Without a probe, nothing is read. *)
Lemma read_input_not_probed (w : world) (source source_type content_field : string)
    (kw : kwargs) :
  probed source source_type = false ->
  (read_input registered_json_stream w source source_type content_field kw).1 = []
  /\ forall it,
       (read_input registered_json_stream w source source_type content_field kw).2
       = Returns it ->
       it <> read_json_stream source kw
       /\ (it = read_large_json source kw -> source_type = "large_json").
Proof.
  unfold probed, read_input. intros H.
  apply orb_false_iff in H. destruct H as [Hjs Hauto]. rewrite Hjs.
  destruct (String.eqb_spec source_type "auto") as [->|Hna].
  - cbn [andb orb] in *.
    destruct (str_in "8983" source); [split; [reflexivity |]; now intros it [= <-] |].
    destruct (str_in "9200" source); [split; [reflexivity |]; now intros it [= <-] |].
    cbn [negb andb] in Hauto. rewrite Hauto. cbn [orb].
    destruct (String.eqb (splitext source).2 EmptyString);
      (split; [reflexivity |]); intros it; [now intros [= <-] | discriminate].
  - cbn [andb orb].
    destruct (String.eqb source_type "solr");
      [split; [reflexivity |]; now intros it [= <-] |].
    destruct (String.eqb source_type "elastic");
      [split; [reflexivity |]; now intros it [= <-] |].
    destruct (String.eqb_spec source_type "large_json") as [->|_];
      [split; [reflexivity |]; now intros it [= <-] |].
    destruct (String.eqb source_type "folder");
      (split; [reflexivity |]); intros it; [now intros [= <-] | discriminate].
Qed.

End Probe.

(** X21: when [read_input] probes (source type ["json_stream"], or
    ["auto"] with a JSON extension and no port number in the source), what
    it does before it returns is what the registered reader does up to its
    first [yield]: these events open the reader's own trace, hold no
    record, and the first record follows them.  The reader that is
    returned is built anew, so iterating it repeats them. *)
Theorem read_input_probe_events
    (registered_json_stream : world -> string -> kwargs -> trace) (w : world)
    (source source_type content_field : string) (kw : kwargs) :
  probed source source_type = true ->
  let evs :=
    (read_input registered_json_stream w source source_type content_field kw).1 in
  evs `prefix_of` (registered_json_stream w source kw).1
  /\ yields (evs, Stop) = []
  /\ forall t,
       first_element (registered_json_stream w source kw) = Some t ->
       exists rest, (registered_json_stream w source kw).1 = evs ++ Yield t :: rest.
Proof.
  intros Hprobed evs. subst evs. rewrite read_input_probed by exact Hprobed.
  unfold probe.
  pose proof (next_events_before_first (registered_json_stream w source kw)) as H.
  revert H. destruct (next _) as [evs [t|[]|]]; cbn [fst]; intros H; exact H.
Qed.

Lemma read_input_probe_events_witness :
  let evs :=
    (read_input ResolverSamples.lines_reader ResolverSamples.w "late.json"
       "json_stream" "text" Samples.kw).1 in
  evs `prefix_of` (ResolverSamples.lines_reader ResolverSamples.w "late.json"
                     Samples.kw).1
  /\ yields (evs, Stop) = []
  /\ forall t,
       first_element (ResolverSamples.lines_reader ResolverSamples.w "late.json"
                        Samples.kw) = Some t ->
       exists rest,
         (ResolverSamples.lines_reader ResolverSamples.w "late.json" Samples.kw).1
         = evs ++ Yield t :: rest.
Proof.
  apply (read_input_probe_events ResolverSamples.lines_reader ResolverSamples.w
           "late.json" "json_stream" "text" Samples.kw).
  reflexivity.
Defined.

(** X22: when [read_input] probes, it returns the registered JSON-lines
    reader on the source exactly when that reader has a first record. *)
Theorem read_input_json_stream_iff
    (registered_json_stream : world -> string -> kwargs -> trace) (w : world)
    (source source_type content_field : string) (kw : kwargs) :
  probed source source_type = true ->
  (read_input registered_json_stream w source source_type content_field kw).2
  = Returns (read_json_stream source kw)
  <-> exists t, first_element (registered_json_stream w source kw) = Some t.
Proof.
  intros Hprobed. rewrite read_input_probed by exact Hprobed. unfold probe.
  pose proof (next_first_element (registered_json_stream w source kw)) as H.
  revert H. destruct (next _) as [evs [t|e|]]; cbn [snd]; intros H.
  - split; [now exists t | reflexivity].
  - split; [destruct e; discriminate | intros [t Ht]; congruence].
  - split; [discriminate | intros [t Ht]; congruence].
Qed.

Lemma read_input_json_stream_iff_witness :
  (read_input ResolverSamples.lines_reader ResolverSamples.w "late.json" "auto"
     "text" Samples.kw).2
  = Returns (read_json_stream "late.json" Samples.kw)
  <-> exists t,
        first_element (ResolverSamples.lines_reader ResolverSamples.w "late.json"
                         Samples.kw) = Some t.
Proof.
  apply (read_input_json_stream_iff ResolverSamples.lines_reader
           ResolverSamples.w "late.json" "auto" "text" Samples.kw).
  reflexivity.
Defined.

(** X23: when [read_input] probes a source on which the registered reader
    comes to its end without a record (an empty file), the [StopIteration]
    of [next] leaves [read_input]: no reader is returned. *)
Theorem read_input_no_record
    (registered_json_stream : world -> string -> kwargs -> trace) (w : world)
    (source source_type content_field : string) (kw : kwargs) :
  probed source source_type = true ->
  first_element (registered_json_stream w source kw) = None ->
  (registered_json_stream w source kw).2 = Stop ->
  read_input registered_json_stream w source source_type content_field kw
  = ((registered_json_stream w source kw).1, Raises StopIteration).
Proof.
  intros Hprobed Hnone Hstop. rewrite read_input_probed by exact Hprobed.
  unfold probe. now rewrite (next_no_record _ Hnone), Hstop.
Qed.

Lemma read_input_no_record_witness :
  read_input ResolverSamples.lines_reader ResolverSamples.w "empty.json" "auto"
    "text" Samples.kw
  = ([], Raises StopIteration).
Proof.
  etransitivity;
    [apply (read_input_no_record ResolverSamples.lines_reader ResolverSamples.w
              "empty.json" "auto" "text" Samples.kw); reflexivity
    | reflexivity].
Defined.

(** X24: when [read_input] probes and the registered reader raises, before
    its first record, an exception other than [ValueError], this exception
    leaves [read_input] after the events of the probe: only [ValueError]
    is caught. *)
Theorem read_input_probe_exception
    (registered_json_stream : world -> string -> kwargs -> trace) (w : world)
    (source source_type content_field : string) (kw : kwargs) (e : exn) :
  probed source source_type = true ->
  first_element (registered_json_stream w source kw) = None ->
  (registered_json_stream w source kw).2 = Raise e ->
  e <> ValueError ->
  read_input registered_json_stream w source source_type content_field kw
  = ((registered_json_stream w source kw).1, Raises e).
Proof.
  intros Hprobed Hnone Hraise He. rewrite read_input_probed by exact Hprobed.
  unfold probe. rewrite (next_no_record _ Hnone), Hraise.
  now destruct e.
Qed.

Lemma read_input_probe_exception_witness :
  read_input ResolverSamples.lines_reader Samples.w "absent.json" "auto" "text"
    Samples.kw
  = ([], Raises IOError).
Proof.
  etransitivity;
    [apply (read_input_probe_exception ResolverSamples.lines_reader Samples.w
              "absent.json" "auto" "text" Samples.kw IOError);
       [reflexivity .. | discriminate]
    | reflexivity].
Defined.

(** X25: [read_input] returns the large-JSON reader on the source in two
    cases only: the source type is ["large_json"], or the probe is made
    and the registered reader raises a [ValueError] before its first
    record. *)
Theorem read_input_large_json_iff
    (registered_json_stream : world -> string -> kwargs -> trace) (w : world)
    (source source_type content_field : string) (kw : kwargs) :
  (read_input registered_json_stream w source source_type content_field kw).2
  = Returns (read_large_json source kw)
  <-> source_type = "large_json"
      \/ (probed source source_type = true
          /\ first_element (registered_json_stream w source kw) = None
          /\ (registered_json_stream w source kw).2 = Raise ValueError).
Proof.
  destruct (probed source source_type) eqn:Hprobed.
  - rewrite read_input_probed by exact Hprobed. unfold probe.
    assert (Hnl : source_type <> "large_json").
    { intros ->. revert Hprobed. unfold probed. cbn. discriminate. }
    pose proof (next_first_element (registered_json_stream w source kw)) as Hfirst.
    split.
    + intros Hret. right. split; [reflexivity |].
      destruct (first_element (registered_json_stream w source kw)) as [t|] eqn:Hf.
      * revert Hret Hfirst.
        destruct (next _) as [evs [t'|e|]]; cbn [snd]; intros Hret Hfirst;
          discriminate.
      * split; [reflexivity |].
        rewrite (next_no_record _ Hf) in Hret. cbn [snd] in Hret.
        destruct (registered_json_stream w source kw).2 as [|e|];
          try discriminate. now destruct e.
    + intros [-> | (_ & Hnone & Hraise)]; [contradiction |].
      now rewrite (next_no_record _ Hnone), Hraise.
  - destruct (read_input_not_probed registered_json_stream w source source_type
                content_field kw Hprobed) as [_ Hit].
    split.
    + intros Hret. left. now apply (Hit _ Hret).
    + intros [-> | (Habs & _)]; [reflexivity | discriminate].
Qed.

(** ** The folder reader *)

Section FolderFacts.

Variable decode_utf8 : string -> option string.
Variable d : disk.

#[local] Abbreviation files_of := (folder_files decode_utf8 d).
#[local] Abbreviation walk_of := (folder_walk decode_utf8 d).

(** The files of one directory: the events follow the files in order, one
    event for each file, up to the first exception that is not caught. *)
Lemma folder_files_paths (directory : string) (files : list string) :
  event_path <$> (files_of directory files).1
    `prefix_of` (path_join directory <$> files)
  /\ ((files_of directory files).2 = Stop ->
      event_path <$> (files_of directory files).1 = path_join directory <$> files)
  /\ ((files_of directory files).2 = Stop
      \/ exists e, (files_of directory files).2 = Raise e /\ e <> ValueError).
Proof.
  induction files as [|file files IH].
  - cbn. repeat split; [apply prefix_nil | now left].
  - destruct IH as (Hpre & Hall & Hend).
    cbn [folder_files]. rewrite fmap_cons.
    destruct (read_rb d (str_endswith ".gz" file) (path_join directory file))
      as [e|bytes].
    + destruct e; cbn [fst snd];
        try (repeat split;
             [apply prefix_nil | discriminate | right; eexists; split; [reflexivity | discriminate]]).
      rewrite fmap_cons. cbn [event_path].
      repeat split; [now apply prefix_cons | intros H; f_equal; now apply Hall | exact Hend].
    + destruct (decode_utf8 bytes); cbn [fst snd]; rewrite fmap_cons; cbn [event_path];
        (repeat split; [now apply prefix_cons | intros H; f_equal; now apply Hall | exact Hend]).
Qed.

Lemma folder_files_handled (directory : string) (files : list string) :
  forallb (handled_file d directory) files = true ->
  (files_of directory files).2 = Stop.
Proof.
  induction files as [|file files IH]; [reflexivity |].
  cbn [forallb folder_files]. unfold handled_file at 1.
  intros H. apply andb_true_iff in H. destruct H as [Hfile Hrest].
  destruct (read_rb d (str_endswith ".gz" file) (path_join directory file))
    as [[]|bytes]; try discriminate; [| destruct (decode_utf8 bytes)];
    cbn [snd]; now apply IH.
Qed.

Lemma walked_paths_cons (directory : string) (subdirectories files : list string)
    (rest : list (string * list string * list string)) :
  walked_paths ((directory, subdirectories, files) :: rest)
  = (path_join directory <$> files) ++ walked_paths rest.
Proof. reflexivity. Qed.

Lemma folder_walk_paths (dirs : list (string * list string * list string)) :
  event_path <$> (walk_of dirs).1 `prefix_of` walked_paths dirs
  /\ ((walk_of dirs).2 = Stop -> event_path <$> (walk_of dirs).1 = walked_paths dirs)
  /\ ((walk_of dirs).2 = Stop
      \/ exists e, (walk_of dirs).2 = Raise e /\ e <> ValueError).
Proof.
  induction dirs as [|[[directory subdirectories] files] dirs IH].
  - cbn. repeat split; [apply prefix_nil | now left].
  - destruct IH as (Hpre & Hall & Hend).
    cbn [folder_walk]. rewrite walked_paths_cons.
    destruct (folder_files_paths directory files) as (Hfpre & Hfall & Hfend).
    destruct (files_of directory files) as [evs o]. cbn [fst snd] in *.
    destruct o as [|e|].
    + cbn [fst snd]. rewrite fmap_app, (Hfall eq_refl).
      repeat split; [now apply prefix_app | | exact Hend].
      intros H. f_equal. now apply Hall.
    + cbn [fst snd]. repeat split;
        [now apply prefix_app_r | discriminate | exact Hfend].
    + destruct Hfend as [H | (e & H & _)]; discriminate.
Qed.

Lemma folder_walk_handled (dirs : list (string * list string * list string)) :
  forallb (fun t => forallb (handled_file d t.1.1) t.2) dirs = true ->
  (walk_of dirs).2 = Stop.
Proof.
  induction dirs as [|[[directory subdirectories] files] dirs IH]; [reflexivity |].
  cbn [forallb folder_walk fst snd]. intros H.
  apply andb_true_iff in H. destruct H as [Hfiles Hrest].
  pose proof (folder_files_handled directory files Hfiles) as Hstop.
  destruct (files_of directory files) as [evs o]. cbn [snd] in Hstop. subst o.
  cbn [snd]. now apply IH.
Qed.

(** What is yielded is the decoded content of a walked file, read through
    [gzip] exactly when the name of the file ends in [.gz]; what is logged
    is a walked file whose reading raised [ValueError] or whose bytes are
    not UTF-8. *)
Lemma folder_files_sound (directory : string) (files : list string) :
  Forall (fun ev =>
            exists file,
              file ∈ files
              /\ event_path ev = path_join directory file
              /\ match ev with
                 | FileYield p text =>
                     exists bytes,
                       read_rb d (str_endswith ".gz" file) p = inr bytes
                       /\ decode_utf8 bytes = Some text
                 | FileWarn p =>
                     read_rb d (str_endswith ".gz" file) p = inl ValueError
                     \/ exists bytes,
                          read_rb d (str_endswith ".gz" file) p = inr bytes
                          /\ decode_utf8 bytes = None
                 end)
         (files_of directory files).1.
Proof.
  induction files as [|file files IH]; [constructor |].
  assert (Hrest : Forall (fun ev =>
            exists file',
              file' ∈ file :: files
              /\ event_path ev = path_join directory file'
              /\ match ev with
                 | FileYield p text =>
                     exists bytes,
                       read_rb d (str_endswith ".gz" file') p = inr bytes
                       /\ decode_utf8 bytes = Some text
                 | FileWarn p =>
                     read_rb d (str_endswith ".gz" file') p = inl ValueError
                     \/ exists bytes,
                          read_rb d (str_endswith ".gz" file') p = inr bytes
                          /\ decode_utf8 bytes = None
                 end)
         (files_of directory files).1).
  { eapply Forall_impl; [exact IH |]. intros ev (file' & Hin & Hev).
    exists file'. split; [now apply list_elem_of_further | exact Hev]. }
  cbn [folder_files].
  destruct (read_rb d (str_endswith ".gz" file) (path_join directory file))
    as [e|bytes] eqn:Hread.
  - destruct e; try constructor; try exact Hrest.
    exists file. split; [apply list_elem_of_here |]. split; [reflexivity |]. now left.
  - destruct (decode_utf8 bytes) as [text|] eqn:Hdec; cbn [fst];
      (constructor; [| exact Hrest]);
      exists file; (split; [apply list_elem_of_here |]); (split; [reflexivity |]).
    + now exists bytes.
    + right. now exists bytes.
Qed.

End FolderFacts.

Section FolderWalk.

Variable decode_utf8 : string -> option string.
Variable d : disk.

Lemma folder_files_app (directory : string) (pre rest : list string) :
  forallb (handled_file d directory) pre = true ->
  folder_files decode_utf8 d directory (pre ++ rest)
  = ((folder_files decode_utf8 d directory pre).1
       ++ (folder_files decode_utf8 d directory rest).1,
     (folder_files decode_utf8 d directory rest).2).
Proof.
  induction pre as [|file pre IH].
  - intros _. cbn. now destruct (folder_files decode_utf8 d directory rest).
  - cbn [forallb app folder_files]. unfold handled_file at 1. intros H.
    apply andb_true_iff in H. destruct H as [Hfile Hpre].
    destruct (read_rb d (str_endswith ".gz" file) (path_join directory file))
      as [[]|bytes]; try discriminate; [| destruct (decode_utf8 bytes)];
      rewrite (IH Hpre); reflexivity.
Qed.

Lemma folder_walk_app (pre rest : list (string * list string * list string)) :
  forallb (fun t => forallb (handled_file d t.1.1) t.2) pre = true ->
  folder_walk decode_utf8 d (pre ++ rest)
  = ((folder_walk decode_utf8 d pre).1 ++ (folder_walk decode_utf8 d rest).1,
     (folder_walk decode_utf8 d rest).2).
Proof.
  induction pre as [|[[directory subdirectories] files] pre IH].
  - intros _. cbn. now destruct (folder_walk decode_utf8 d rest).
  - cbn [forallb app folder_walk fst snd]. intros H.
    apply andb_true_iff in H. destruct H as [Hfiles Hpre].
    pose proof (folder_files_handled decode_utf8 d directory files Hfiles) as Hstop.
    destruct (folder_files decode_utf8 d directory files) as [evs o].
    cbn [snd] in Hstop. subst o. rewrite (IH Hpre). cbn [fst snd].
    now rewrite app_assoc.
Qed.

Lemma folder_walk_sound (dirs : list (string * list string * list string)) :
  Forall (fun ev =>
            exists directory subdirectories files file,
              (directory, subdirectories, files) ∈ dirs
              /\ file ∈ files
              /\ event_path ev = path_join directory file
              /\ match ev with
                 | FileYield p text =>
                     exists bytes,
                       read_rb d (str_endswith ".gz" file) p = inr bytes
                       /\ decode_utf8 bytes = Some text
                 | FileWarn p =>
                     read_rb d (str_endswith ".gz" file) p = inl ValueError
                     \/ exists bytes,
                          read_rb d (str_endswith ".gz" file) p = inr bytes
                          /\ decode_utf8 bytes = None
                 end)
         (folder_walk decode_utf8 d dirs).1.
Proof.
  induction dirs as [|[[directory subdirectories] files] dirs IH]; [constructor |].
  cbn [folder_walk].
  pose proof (folder_files_sound decode_utf8 d directory files) as Hfiles.
  assert (Hhere : Forall (fun ev =>
            exists directory' subdirectories' files' file,
              (directory', subdirectories', files')
                ∈ (directory, subdirectories, files) :: dirs
              /\ file ∈ files'
              /\ event_path ev = path_join directory' file
              /\ match ev with
                 | FileYield p text =>
                     exists bytes,
                       read_rb d (str_endswith ".gz" file) p = inr bytes
                       /\ decode_utf8 bytes = Some text
                 | FileWarn p =>
                     read_rb d (str_endswith ".gz" file) p = inl ValueError
                     \/ exists bytes,
                          read_rb d (str_endswith ".gz" file) p = inr bytes
                          /\ decode_utf8 bytes = None
                 end)
         (folder_files decode_utf8 d directory files).1).
  { eapply Forall_impl; [exact Hfiles |]. intros ev (file & Hin & Hev).
    exists directory, subdirectories, files, file.
    split; [apply list_elem_of_here | now split]. }
  destruct (folder_files decode_utf8 d directory files) as [evs o].
  cbn [fst] in Hhere. destruct o; cbn [fst]; try exact Hhere.
  apply Forall_app. split; [exact Hhere |].
  eapply Forall_impl; [exact IH |].
  intros ev (directory' & subdirectories' & files' & file & Hin & Hev).
  exists directory', subdirectories', files', file.
  split; [now apply list_elem_of_further | exact Hev].
Qed.

End FolderWalk.

(** X26: when every file of the walk can be read, or fails with a
    [ValueError], the folder reader goes through the whole tree: it gives
    one event for each file, a record or a warning, under the joined path
    of the file and in the order of the walk, and comes to its end. *)
Theorem folder_reader_every_file (decode_utf8 : string -> option string)
    (d : disk) (folder : string) :
  forallb (fun t => forallb (handled_file d t.1.1) t.2) (walk d folder) = true ->
  let t := iter_documents_folder decode_utf8 d folder in
  t.2 = Stop
  /\ event_path <$> t.1 = walked_paths (walk d folder)
  /\ length t.1 = length (walked_paths (walk d folder)).
Proof.
  intros Hok t. subst t. unfold iter_documents_folder.
  pose proof (folder_walk_handled decode_utf8 d (walk d folder) Hok) as Hstop.
  destruct (folder_walk_paths decode_utf8 d (walk d folder)) as (_ & Hall & _).
  specialize (Hall Hstop). repeat split; [exact Hstop | exact Hall |].
  now rewrite <- Hall, length_fmap.
Qed.

Lemma folder_reader_every_file_witness :
  let t := iter_documents_folder MoreSamples.decode_ascii MoreSamples.tree "data" in
  t.2 = Stop
  /\ event_path <$> t.1 = ["data/a.txt"; "data/b.gz"; "data/sub/c.bin"]
  /\ length t.1 = 3.
Proof.
  apply (folder_reader_every_file MoreSamples.decode_ascii MoreSamples.tree "data").
  reflexivity.
Defined.

(** X27: the events of the folder reader follow the files of the walk in
    order, one event for each file, with no file skipped or visited twice;
    the iteration comes to its end, and then every walked file has its
    event, or it is left by an exception other than [ValueError]. *)
Theorem folder_reader_follows_walk (decode_utf8 : string -> option string)
    (d : disk) (folder : string) :
  let t := iter_documents_folder decode_utf8 d folder in
  event_path <$> t.1 `prefix_of` walked_paths (walk d folder)
  /\ (t.2 = Stop -> event_path <$> t.1 = walked_paths (walk d folder))
  /\ (t.2 = Stop \/ exists e, t.2 = Raise e /\ e <> ValueError).
Proof. apply folder_walk_paths. Qed.

(** X28: every record of the folder reader holds the decoded bytes of a
    file of the walk, read with [gzip.open] when the name of the file ends
    in [.gz] and with [open] otherwise; every warning is for a file of the
    walk whose reading raised [ValueError] or whose bytes are not UTF-8. *)
Theorem folder_reader_sound (decode_utf8 : string -> option string)
    (d : disk) (folder : string) :
  Forall (fun ev =>
            exists directory subdirectories files file,
              (directory, subdirectories, files) ∈ walk d folder
              /\ file ∈ files
              /\ event_path ev = path_join directory file
              /\ match ev with
                 | FileYield p text =>
                     exists bytes,
                       read_rb d (str_endswith ".gz" file) p = inr bytes
                       /\ decode_utf8 bytes = Some text
                 | FileWarn p =>
                     read_rb d (str_endswith ".gz" file) p = inl ValueError
                     \/ exists bytes,
                          read_rb d (str_endswith ".gz" file) p = inr bytes
                          /\ decode_utf8 bytes = None
                 end)
         (iter_documents_folder decode_utf8 d folder).1.
Proof. apply folder_walk_sound. Qed.

(** X29: a file whose opening or reading raises an exception other than
    [ValueError] (a file that cannot be opened, a [.gz] file that is not
    gzip) ends the walk with that exception: the files before it have
    their events and the files after it are never opened. *)
Theorem folder_reader_aborts (decode_utf8 : string -> option string)
    (d : disk) (folder : string)
    (before after : list (string * list string * list string))
    (directory : string) (subdirectories pre post : list string)
    (file : string) (e : exn) :
  walk d folder
  = before ++ (directory, subdirectories, pre ++ file :: post) :: after ->
  forallb (fun t => forallb (handled_file d t.1.1) t.2) before = true ->
  forallb (handled_file d directory) pre = true ->
  read_rb d (str_endswith ".gz" file) (path_join directory file) = inl e ->
  e <> ValueError ->
  let t := iter_documents_folder decode_utf8 d folder in
  t.2 = Raise e
  /\ event_path <$> t.1 = walked_paths before ++ (path_join directory <$> pre).
Proof.
  intros Hwalk Hbefore Hpre Hread He t. subst t.
  unfold iter_documents_folder. rewrite Hwalk.
  rewrite folder_walk_app by exact Hbefore.
  cbn [folder_walk]. rewrite folder_files_app by exact Hpre.
  cbn [folder_files]. rewrite Hread.
  destruct (folder_walk_paths decode_utf8 d before) as (_ & Hall & _).
  specialize (Hall (folder_walk_handled decode_utf8 d before Hbefore)).
  destruct (folder_files_paths decode_utf8 d directory pre) as (_ & Hfall & _).
  specialize (Hfall (folder_files_handled decode_utf8 d directory pre Hpre)).
  destruct e; try contradiction; cbn [fst snd];
    rewrite app_nil_r, fmap_app, Hall, Hfall; split; reflexivity.
Qed.

Lemma folder_reader_aborts_witness :
  let t := iter_documents_folder MoreSamples.decode_ascii MoreSamples.damaged "data" in
  t.2 = Raise IOError
  /\ event_path <$> t.1 = ["data/a.txt"].
Proof.
  apply (folder_reader_aborts MoreSamples.decode_ascii MoreSamples.damaged "data"
           [] [("data/sub", [], ["c.bin"])] "data" ["sub"] ["a.txt"] [] "b.gz"
           IOError); [reflexivity .. | discriminate].
Defined.
